(** * Nepal-Map-Visualizer: the join-and-render pipeline of [maincopy.py]

    A shallow embedding of the upload handler, the location matcher, the
    layer drawing loop, the hover-text composer and the viewport code of
    [src/maincopy.py], followed by the properties the specification states
    about them.

    Conventions of the embedding:
    - a pandas frame is a list of column names plus rows carrying their index
      label; a cell is an int64, a finite float64 (its exact rational value),
      a Python [str], a missing value or [None]. The boundary frame is its
      attribute labels plus, per row, the name, the other attribute cells and
      the geometry;
    - a float64 is its exact rational value, an infinity or NaN. [float(n)]
      and the conversions and operations of [numpy.interp] round to the
      nearest float64, ties to even; minimum, maximum and the comparison of
      line 228 are exact, as they are on int64 and on float64 values. The
      jitter of the text markers is kept exact;
    - [st.toast], [st.warning] and [st.error] append to a log, [fig.add_trace]
      appends to the figure, [random.random] reads a stream: one state record
      threaded through a state-and-exception monad. An exception keeps the
      state reached so far, as in Python;
    - [pd.merge] and [numpy.interp] are written out after pandas 2 and numpy;
      functions of external libraries whose result depends on their
      internals (the fuzzy scorer, string-to-number parsing, float printing,
      centroids, unions of geometries, the chart's events) are fields of a
      record [Lib]; [sample_colorscale] is kept as an uninterpreted
      constructor of [colour]. *)

From Stdlib Require Import ZArith QArith Qminmax Qabs Qround Qpower.
From Stdlib Require Import List String Ascii Bool Lia Lqa.
From Stdlib Require Import DecimalString.
Import ListNotations.

Local Open Scope string_scope.
Local Open Scope Z_scope.

(** ** Data *)

(** A cell of a frame read by [pd.read_csv] (or written by [apply]). *)
Inductive cell : Type :=
| CInt (n : Z)
| CFloat (q : Q)
| CStr (s : string)
| CNaN
| CNone.

(** A float: a finite value, the negative zero that [float] can make of a
    string, an infinity, or NaN. *)
Inductive pyfloat : Type :=
| Finite (q : Q)
| NegZero
| Infinite (negative : bool)
| NaNf.

(** An element of a numeric series: numpy's int64 or float64. *)
Inductive number : Type :=
| Int64 (n : Z)
| Float64 (q : Q).

(** A frame: [columns], and the rows with their index labels. A frame read
    from a file carries the labels 0, 1, 2, ...; selecting rows keeps them. *)
Record DataFrame : Type := mkFrame {
  columns : list string;
  rows : list (Z * list cell)
}.

(** Only the exterior rings are ever read ([poly.exterior.coords.xy]). *)
Inductive geometry : Type :=
| Polygon (exterior : list (Q * Q))
| MultiPolygon (geoms : list (list (Q * Q))).

(** A row of [districts_gdf] or [provinces_gdf]: its value under
    [district_col_name] (a [str]; not read when the frame has no such
    column), its cells under the other attribute labels, in their order, and
    its geometry. *)
Record feature : Type := mkFeature {
  feat_name : string;
  feat_attributes : list cell;
  feat_geometry : geometry
}.

(** [districts_gdf]: the attribute labels of the frame, which are followed
    by the label [geometry], and its rows. *)
Record GeoDataFrame : Type := mkGeo {
  attribute_columns : list string;
  features : list feature
}.

(** The value stored under a file key in [st.session_state.uploaded_files]. *)
Record file_info : Type := mkInfo {
  data : DataFrame;
  value_column : string;
  visible : bool;
  color : string;
  tooltip_visible : bool;
  display_name : string;
  tooltip_label : string;
  icon : string
}.

(** Colours handed to plotly: a CSS string, or the result of
    [sample_colorscale([[0, low], [1, high]], t)[0]]. *)
Inductive colour : Type :=
| Css (s : string)
| sample_colorscale (low high : string) (t : pyfloat).

(** The [go.Scatter] traces the script adds, by the shape of the call. *)
Inductive trace : Type :=
| FilledPolygon (x y : list Q) (fillcolor line_color : colour)
| TextMarker (x y : Q) (text : string) (size : Z) (text_color : colour)
| Outline (x y : list Q) (line_color : colour) (line_width : Q)
| HoverRegion (x y : list Q) (text : string).

Inductive exn : Type :=
| KeyError (key : string)
| TypeError (what : string)
| ValueError (what : string)
| MergeError (duplicates : list string)
| AttributeError (what : string)
| ReadError (what : string).

(** [", ".join(labels)]. *)
Fixpoint comma_separated (labels : list string) : string :=
  match labels with
  | [] => ""
  | [l] => "'" ++ l ++ "'"
  | l :: ls => "'" ++ l ++ "', " ++ comma_separated ls
  end.

(** [str(e)]. *)
Definition exn_str (e : exn) : string :=
  match e with
  | KeyError key => "'" ++ key ++ "'"
  | TypeError what => what
  | ValueError what => what
  | MergeError duplicates =>
      "Passing 'suffixes' which cause duplicate columns {"
        ++ comma_separated duplicates ++ "} is not allowed."
  | AttributeError what => what
  | ReadError what => what
  end.

Inductive message : Type :=
| Toast (body : string)
| Warning (body : string)
| Error (body : string)
| ExceptionShown (e : exn).

(** The file handed over by [st.sidebar.file_uploader]: its name and what
    [pd.read_csv] makes of it. *)
Record uploaded : Type := mkUploaded {
  name : string;
  read_csv : exn + DataFrame
}.

(** External library functions whose values the script only passes on. *)
Record Lib : Type := mkLib {
  (** [process] of fuzzywuzzy when the import succeeded
      ([FUZZYWUZZY_AVAILABLE]): the default scorer of [extractOne], applied
      to a query and one choice. *)
  process : option (string -> string -> Z);
  (** [pd.to_numeric(..., errors='coerce')] on a [str] cell alone; [None]
      is NaN. *)
  to_numeric_str : string -> option number;
  (** [float(s)] on a [str]; [None] is [ValueError]. *)
  float_str : string -> option pyfloat;
  (** [str(x)] of a float cell. *)
  str_float : Q -> string;
  (** [geom.centroid], as [(x, y)]. *)
  centroid : geometry -> Q * Q;
  (** The successive results of [random.random()]. *)
  random_random : nat -> Q;
  (** The geometry column of [provinces_gdf.dissolve()]. *)
  dissolve : list geometry -> list geometry;
  (** [GeoSeries.union_all()]; an empty union stands as a [MultiPolygon]
      without parts. *)
  union_all : list geometry -> geometry;
  (** [event_data["relayoutData"]] when [st.plotly_chart] returns a [dict]
      with that key, for the figure shown. *)
  plotly_chart : list trace -> option (list (string * list Q))
}.

(** The sidebar toggles and the session state read by [main]; [map_view] is
    [st.session_state.map_view], a [dict] from layout keys to ranges. *)
Record toggles : Type := mkToggles {
  show_district_borders : bool;
  show_province_borders : bool;
  color_by_province : bool;
  show_district_tooltip : bool;
  province_visibility : list (Z * bool);
  province_colors : list (Z * string);
  map_view : list (string * list Q)
}.

(** What one run of [main] leaves behind: the log of notifications; the
    traces and the axis ranges of the figure when [st.plotly_chart] was
    reached; and [st.session_state.map_view]. *)
Record outcome : Type := mkOutcome {
  shown : option (list trace);
  messages : list message;
  axis_ranges : option (list Q * list Q);
  session_map_view : list (string * list Q)
}.

(** ** Strings *)

Definition lower_ascii (c : ascii) : ascii :=
  let n := N_of_ascii c in
  if ((65 <=? n) && (n <=? 90))%N then ascii_of_N (n + 32) else c.

(** [s.lower()]; on the bytes of a UTF-8 string only A-Z change, which is all
    a comparison with an ASCII literal can see. *)
Fixpoint lower (s : string) : string :=
  match s with
  | EmptyString => EmptyString
  | String c s' => String (lower_ascii c) (lower s')
  end.

Fixpoint replace_from (old new s : string) (skip : nat) : string :=
  match s with
  | EmptyString => EmptyString
  | String c s' =>
      match skip with
      | S k => replace_from old new s' k
      | O =>
          if prefix old s
          then new ++ replace_from old new s' (String.length old - 1)
          else String c (replace_from old new s' 0)
      end
  end.

(** [s.replace(old, new)] for a non-empty [old]. *)
Definition replace (old new s : string) : string := replace_from old new s 0.

Fixpoint join (sep : string) (parts : list string) : string :=
  match parts with
  | [] => ""
  | [p] => p
  | p :: ps => p ++ sep ++ join sep ps
  end.

(** [needle in s]. *)
Fixpoint contains (needle s : string) : bool :=
  prefix needle s ||
  match s with
  | EmptyString => false
  | String _ s' => contains needle s'
  end.

Definition byte (n : Z) : string := String (ascii_of_N (Z.to_N n)) EmptyString.

(** [chr(n)], UTF-8 encoded; [ValueError] outside [range(0x110000)]. *)
Definition chr (n : Z) : exn + string :=
  if (n <? 0) || (1114111 <? n) then inl (ValueError "chr() arg not in range(0x110000)")
  else if n <? 128 then inr (byte n)
  else if n <? 2048 then inr (byte (192 + n / 64) ++ byte (128 + n mod 64))
  else if n <? 65536 then
    inr (byte (224 + n / 4096) ++ byte (128 + (n / 64) mod 64) ++ byte (128 + n mod 64))
  else
    inr (byte (240 + n / 262144) ++ byte (128 + (n / 4096) mod 64)
           ++ byte (128 + (n / 64) mod 64) ++ byte (128 + n mod 64)).

(** [str(n)] of an integer. *)
Definition str_int (n : Z) : string := NilZero.string_of_int (Z.to_int n).

(** Digits with a comma before every complete group of three that follows. *)
Fixpoint group_thousands (digits : string) : string :=
  match digits with
  | EmptyString => EmptyString
  | String c rest =>
      String c
        (if (0 <? String.length rest)%nat && (String.length rest mod 3 =? 0)%nat
         then "," ++ group_thousands rest
         else group_thousands rest)
  end.

(** The integer nearest to [q], ties to the even one. *)
Definition round_half_even (q : Q) : Z :=
  let num := Qnum q in
  let den := Zpos (Qden q) in
  let fl := num / den in
  let twice_rem := 2 * (num mod den) in
  if twice_rem <? den then fl
  else if den <? twice_rem then fl + 1
  else if Z.even fl then fl else fl + 1.

Definition two_digits (n : Z) : string :=
  if n <? 10 then "0" ++ str_int n else str_int n.

(** [f"{x:,.2f}"]: the exact value rounded to two decimals, the integer part
    grouped by thousands. *)
Definition format_2f (x : pyfloat) : string :=
  match x with
  | NaNf => "nan"
  | Infinite negative => if negative then "-inf" else "inf"
  | NegZero => "-0.00"
  | Finite q =>
      let cents := round_half_even (Qabs q * 100)%Q in
      (if Qlt_le_dec q 0 then "-" else "")
        ++ group_thousands (str_int (cents / 100)) ++ "." ++ two_digits (cents mod 100)
  end.

(** ** Binary64 *)

(** The binary exponent of a positive [y]: [2 ^ e <= y < 2 ^ (e + 1)]. *)
Definition exponent (y : Q) : Z :=
  let e := Z.log2 (Qnum y) - Z.log2 (Zpos (Qden y)) in
  if Qle_bool (2 ^ e) y then e else e - 1.

(** The spacing of the float64 numbers around a positive [y] is
    [2 ^ quantum y]: 53 significant bits, and [2 ^ -1074] below the normal
    range. *)
Definition quantum (y : Q) : Z := Z.max (exponent y - 52) (-1074).

(** A positive [y] rounded to the nearest multiple of its quantum, ties to
    the even multiple. *)
Definition round_positive (y : Q) : Q :=
  let k := quantum y in
  Qred (inject_Z (round_half_even (y * 2 ^ (- k))) * 2 ^ k).

Definition round_nearest (q : Q) : Q :=
  match Qnum q with
  | Z0 => 0%Q
  | Zpos _ => round_positive q
  | Zneg _ => (- round_positive (- q))%Q
  end.

(** The float64 nearest to [q]; a result of magnitude [2 ^ 1024] overflows. *)
Definition float64 (q : Q) : pyfloat :=
  let r := round_nearest q in
  if Qle_bool (2 ^ 1024) (Qabs r) then Infinite (negb (Qle_bool 0 r)) else Finite r.

(** A zero is taken without its sign in comparisons and arithmetic: the
    script takes no quotient by a zero and prints no computed zero. *)
Definition unsigned (a : pyfloat) : pyfloat :=
  match a with
  | NegZero => Finite 0
  | _ => a
  end.

Definition isnan (a : pyfloat) : bool :=
  match a with NaNf => true | _ => false end.

(** [a < b], [a == b] and [a >= b] of C doubles: false when either is NaN. *)
Definition flt (a b : pyfloat) : bool :=
  match unsigned a, unsigned b with
  | Finite x, Finite y => negb (Qle_bool y x)
  | Finite _, Infinite negative => negb negative
  | Infinite negative, Finite _ => negative
  | Infinite na, Infinite nb => na && negb nb
  | _, _ => false
  end.

Definition feq (a b : pyfloat) : bool :=
  match unsigned a, unsigned b with
  | Finite x, Finite y => Qeq_bool x y
  | Infinite na, Infinite nb => Bool.eqb na nb
  | _, _ => false
  end.

Definition fge (a b : pyfloat) : bool := flt b a || feq a b.

Definition fneg (a : pyfloat) : pyfloat :=
  match unsigned a with
  | Finite x => Finite (- x)
  | Infinite negative => Infinite (negb negative)
  | other => other
  end.

Definition fadd (a b : pyfloat) : pyfloat :=
  match unsigned a, unsigned b with
  | Finite x, Finite y => float64 (x + y)
  | Finite _, Infinite negative => Infinite negative
  | Infinite negative, Finite _ => Infinite negative
  | Infinite na, Infinite nb => if Bool.eqb na nb then Infinite na else NaNf
  | _, _ => NaNf
  end.

Definition fsub (a b : pyfloat) : pyfloat := fadd a (fneg b).

Definition negative_Q (x : Q) : bool := negb (Qle_bool 0 x).

Definition fmul (a b : pyfloat) : pyfloat :=
  match unsigned a, unsigned b with
  | Finite x, Finite y => float64 (x * y)
  | Finite x, Infinite negative =>
      if Qeq_bool x 0 then NaNf else Infinite (xorb (negative_Q x) negative)
  | Infinite negative, Finite y =>
      if Qeq_bool y 0 then NaNf else Infinite (xorb negative (negative_Q y))
  | Infinite na, Infinite nb => Infinite (xorb na nb)
  | _, _ => NaNf
  end.

Definition fdiv (a b : pyfloat) : pyfloat :=
  match unsigned a, unsigned b with
  | Finite x, Finite y =>
      if Qeq_bool y 0
      then if Qeq_bool x 0 then NaNf else Infinite (negative_Q x)
      else float64 (x / y)
  | Finite _, Infinite _ => Finite 0
  | Infinite negative, Finite y => Infinite (xorb negative (negative_Q y))
  | _, _ => NaNf
  end.

(** [str(v)] of a cell, as an f-string prints it. *)
Definition py_str (L : Lib) (v : cell) : string :=
  match v with
  | CInt n => str_int n
  | CFloat q => str_float L q
  | CStr s => s
  | CNaN => "nan"
  | CNone => "None"
  end.

(** [float(v)]; [None] stands for the [ValueError] or [TypeError] that the
    hover composer catches. An int64 is rounded to the nearest float64. *)
Definition py_float (L : Lib) (v : cell) : option pyfloat :=
  match v with
  | CInt n => Some (float64 (inject_Z n))
  | CFloat q => Some (Finite q)
  | CStr s => float_str L s
  | CNaN => Some NaNf
  | CNone => None
  end.

(** One element of [pd.to_numeric(series, errors='coerce')]; [None] is NaN. *)
Definition to_numeric (L : Lib) (v : cell) : option number :=
  match v with
  | CInt n => Some (Int64 n)
  | CFloat q => Some (Float64 q)
  | CStr s => to_numeric_str L s
  | CNaN => None
  | CNone => None
  end.

Definition notna {A : Type} (v : option A) : bool :=
  match v with Some _ => true | None => false end.

(** ** Exceptions and effects *)

(** Pure code that may raise. *)
Definition R (A : Type) : Type := (exn + A)%type.

Definition bindR {A B : Type} (c : R A) (k : A -> R B) : R B :=
  match c with
  | inl e => inl e
  | inr a => k a
  end.

Notation "'let?' x ':=' c 'in' k" := (bindR c (fun x => k))
  (at level 10, x pattern, c at level 100, k at level 200).

Fixpoint mapR {A B : Type} (f : A -> R B) (l : list A) : R (list B) :=
  match l with
  | [] => inr []
  | a :: l' =>
      let? b := f a in
      let? bs := mapR f l' in
      inr (b :: bs)
  end.

(** The figure under construction, the notifications sent so far, and how
    many random numbers were drawn. *)
Record state : Type := mkState {
  fig : list trace;
  log : list message;
  rng : nat
}.

Definition M (A : Type) : Type := state -> (exn + A) * state.

Definition ret {A : Type} (a : A) : M A := fun s => (inr a, s).

Definition bind {A B : Type} (c : M A) (k : A -> M B) : M B :=
  fun s =>
    match c s with
    | (inl e, s') => (inl e, s')
    | (inr a, s') => k a s'
    end.

Notation "'let*' x ':=' c 'in' k" := (bind c (fun x => k))
  (at level 10, x pattern, c at level 100, k at level 200).
Notation "c ';;' k" := (bind c (fun _ => k))
  (at level 100, k at level 200, right associativity).

Definition raise {A : Type} (e : exn) : M A := fun s => (inl e, s).

Definition lift {A : Type} (c : R A) : M A :=
  match c with
  | inl e => raise e
  | inr a => ret a
  end.

Definition add_trace (t : trace) : M unit :=
  fun s => (inr tt, mkState (fig s ++ [t])%list (log s) (rng s)).

Definition notify (m : message) : M unit :=
  fun s => (inr tt, mkState (fig s) (log s ++ [m])%list (rng s)).

Definition random (L : Lib) : M Q :=
  fun s => (inr (random_random L (rng s)), mkState (fig s) (log s) (S (rng s))).

(** [for a in l: body(a)]. *)
Fixpoint for_each {A : Type} (l : list A) (body : A -> M unit) : M unit :=
  match l with
  | [] => ret tt
  | a :: l' => body a ;; for_each l' body
  end.

(** [[f(a) for a in l]], in order. *)
Fixpoint mapM {A B : Type} (f : A -> M B) (l : list A) : M (list B) :=
  match l with
  | [] => ret []
  | a :: l' =>
      let* b := f a in
      let* bs := mapM f l' in
      ret (b :: bs)
  end.

Definition when (b : bool) (c : M unit) : M unit := if b then c else ret tt.

(** ** Frames *)

Fixpoint position (col : string) (cols : list string) : option nat :=
  match cols with
  | [] => None
  | c :: cols' =>
      if String.eqb c col then Some O else option_map S (position col cols')
  end.

(** [col in df.columns]. *)
Definition has_column (col : string) (df : DataFrame) : bool :=
  existsb (String.eqb col) (columns df).

(** [row[col]] for a row of a frame with the given columns. *)
Definition row_get (cols : list string) (cells : list cell) (col : string) : R cell :=
  match position col cols with
  | Some k =>
      match nth_error cells k with
      | Some c => inr c
      | None => inl (KeyError col)
      end
  | None => inl (KeyError col)
  end.

(** [df[col]]: the cells of a column, top to bottom. *)
Definition column (df : DataFrame) (col : string) : R (list cell) :=
  if has_column col df
  then mapR (fun r => row_get (columns df) (snd r) col) (rows df)
  else inl (KeyError col).

Fixpoint set_nth (k : nat) (c : cell) (cells : list cell) : list cell :=
  match k, cells with
  | _, [] => []
  | O, _ :: cells' => c :: cells'
  | S k', c0 :: cells' => c0 :: set_nth k' c cells'
  end.

(** [df[col] = values]: overwrite the column, or add it as the last one. *)
Definition set_column (df : DataFrame) (col : string) (values : list cell) : DataFrame :=
  match position col (columns df) with
  | Some k =>
      mkFrame (columns df)
        (map (fun rv => (fst (fst rv), set_nth k (snd rv) (snd (fst rv))))
           (combine (rows df) values))
  | None =>
      mkFrame (columns df ++ [col])%list
        (map (fun rv => (fst (fst rv), (snd (fst rv) ++ [snd rv])%list))
           (combine (rows df) values))
  end.

(** [cell == name] for a [str] name. *)
Definition cell_is (name : string) (c : cell) : bool :=
  match c with
  | CStr s => String.eqb s name
  | _ => false
  end.

(** [df[df[col] == name]]: the rows whose cell equals [name], labels kept. *)
Definition select_eq (df : DataFrame) (col name : string) : R (list (Z * list cell)) :=
  let? keys := column df col in
  inr (map snd (filter (fun kr => cell_is name (fst kr)) (combine keys (rows df)))).

Definition empty {A : Type} (frame_rows : list A) : bool :=
  match frame_rows with [] => true | _ => false end.

(** ** The boundary frame *)

(** [districts_gdf.columns]. *)
Definition gdf_columns (gdf : GeoDataFrame) : list string :=
  (attribute_columns gdf ++ ["geometry"])%list.

(** Line 179. *)
Definition district_col_name (districts_gdf : GeoDataFrame) : string :=
  if existsb (String.eqb "DIST_EN") (gdf_columns districts_gdf) then "DIST_EN" else "DISTRICT".

(** [district_col_name in districts_gdf.columns]. *)
Definition has_name_column (districts_gdf : GeoDataFrame) : bool :=
  existsb (String.eqb (district_col_name districts_gdf)) (gdf_columns districts_gdf).

(** Line 203: [districts_gdf[district_col_name].tolist()]. *)
Definition official_names (districts_gdf : GeoDataFrame) : R (list string) :=
  if has_name_column districts_gdf
  then inr (map feat_name (features districts_gdf))
  else inl (KeyError (district_col_name districts_gdf)).

(** Line 261: [row.get(district_col_name, 'N/A')]. *)
Definition district_name (districts_gdf : GeoDataFrame) (row : feature) : string :=
  if has_name_column districts_gdf then feat_name row else "N/A".

(** ** The inner join *)

Definition is_number (c : cell) : bool :=
  match c with
  | CInt _ | CFloat _ | CNaN => true
  | _ => false
  end.

Definition is_int (c : cell) : bool :=
  match c with CInt _ => true | _ => false end.

Definition is_none (c : cell) : bool :=
  match c with CNone => true | _ => false end.

(** The dtype of a key column is int64 or float64, not object, when it
    holds a number or a missing number and no [str]. [None] cells are left
    aside: a column read from a file has none, and a column of [None]
    alone, as one without rows, is an object column. *)
Definition numeric_dtype (keys : list cell) : bool :=
  existsb is_number keys && forallb (fun c => is_number c || is_none c) keys.

Definition dtype_name (keys : list cell) : string :=
  if forallb (fun c => is_int c || is_none c) keys then "int64" else "float64".

(** The labels the two frames have in common get the suffixes [_x] and [_y]. *)
Definition suffixed (suffix : string) (own other : list string) : list string :=
  map (fun c => if existsb (String.eqb c) other then c ++ suffix else c) own.

(** [Index.duplicated()]: whether a label has occurred before. *)
Fixpoint duplicated (seen labels : list string) : list bool :=
  match labels with
  | [] => []
  | c :: rest => existsb (String.eqb c) seen :: duplicated (c :: seen) rest
  end.

(** The labels that the suffixes have made duplicates. *)
Definition introduced_duplicates (old new : list string) : list string :=
  map fst
    (filter (fun p => fst (snd p) && negb (snd (snd p)))
       (combine new (combine (duplicated [] new) (duplicated [] old)))).

(** The labels of [user_data_gdf]: those of the boundary frame, then those
    of the layer's frame. *)
Definition left_labels (districts_gdf : GeoDataFrame) (user_df : DataFrame) : list string :=
  suffixed "_x" (gdf_columns districts_gdf) (columns user_df).

Definition right_labels (districts_gdf : GeoDataFrame) (user_df : DataFrame) : list string :=
  suffixed "_y" (columns user_df) (gdf_columns districts_gdf).

(** [pd.merge(districts_gdf, user_df, left_on=district_col_name,
    right_on=right_on, how='inner')], after pandas 2. The keys are looked
    up, the right one first; a key column of [str] is not merged with an
    int64 or float64 one when both frames have rows; suffixes must not
    introduce duplicate labels. The order of the left keys is kept, and
    under one district the matching rows of [user_df] keep theirs. A merged
    row is the district with the cells of the [user_df] row. *)
Definition merge (districts_gdf : GeoDataFrame) (user_df : DataFrame) (right_on : string)
  : R (list (feature * list cell)) :=
  let left_on := district_col_name districts_gdf in
  let? keys := column user_df right_on in
  if negb (has_name_column districts_gdf) then inl (KeyError left_on)
  else if negb (empty (features districts_gdf)) && numeric_dtype keys then
    inl (ValueError ("You are trying to merge on object and " ++ dtype_name keys
                       ++ " columns for key '" ++ left_on
                       ++ "'. If you wish to proceed you should use pd.concat"))
  else
    match (introduced_duplicates (gdf_columns districts_gdf)
             (left_labels districts_gdf user_df) ++
           introduced_duplicates (columns user_df)
             (right_labels districts_gdf user_df))%list with
    | [] =>
        inr (flat_map
               (fun d =>
                  map (fun kr => (d, snd (snd kr)))
                    (filter (fun kr => cell_is (feat_name d) (fst kr))
                       (combine keys (rows user_df))))
               (features districts_gdf))
    | duplicates => inl (MergeError duplicates)
    end.

(** ** Location matcher *)

(** Modelled from the spec: [process.extractOne(query, choices)] of
    fuzzywuzzy is not part of the repository. It returns the best-scoring
    choice with its score, the first one met among equal scores, and [None]
    on an empty list of choices. *)
Fixpoint extractOne (scorer : string -> string -> Z) (query : string) (choices : list string)
  : option (string * Z) :=
  match choices with
  | [] => None
  | c :: cs =>
      match extractOne scorer query cs with
      | Some (c', s') => if scorer query c <? s' then Some (c', s') else Some (c, scorer query c)
      | None => Some (c, scorer query c)
      end
  end.

(** [get_match(loc)], lines 204-210. Unpacking [None] (no official name at
    all) and a label that is not a [str] raise [TypeError]. *)
Definition get_match (scorer : string -> string -> Z) (official_districts : list string)
  (loc : cell) : M cell :=
  match loc with
  | CStr loc =>
      match extractOne scorer loc official_districts with
      | Some (match_, score) =>
          if 80 <=? score then
            when (negb (String.eqb loc match_))
              (notify (Toast ("Matched '" ++ loc ++ "' to '" ++ match_ ++ "'"))) ;;
            ret (CStr match_)
          else ret CNone
      | None => raise (TypeError "cannot unpack non-iterable NoneType object")
      end
  | _ => raise (TypeError "expected string or bytes-like object")
  end.

(** Lines 202-214: the frame that is merged and the column it is merged on.
    With fuzzywuzzy the official names are read first (line 203), and
    [matched_location] is written into the copy of the layer's frame;
    without it the frame is merged on [Location] as it is. *)
Definition match_locations (L : Lib) (districts_gdf : GeoDataFrame) (user_df : DataFrame)
  : M (DataFrame * string) :=
  match process L with
  | Some scorer =>
      let* official_districts := lift (official_names districts_gdf) in
      let* locations := lift (column user_df "Location") in
      let* matched := mapM (get_match scorer official_districts) locations in
      ret (set_column user_df "matched_location" matched, "matched_location")
  | None => ret (user_df, "Location")
  end.

(** Lines 202-216: [user_data_gdf], as the merged copy of the layer's frame
    and the joined rows. *)
Definition join_layer (L : Lib) (districts_gdf : GeoDataFrame) (user_df : DataFrame)
  : M (DataFrame * list (feature * list cell)) :=
  let* prepared := match_locations L districts_gdf user_df in
  let* joined := lift (merge districts_gdf (fst prepared) (snd prepared)) in
  ret (fst prepared, joined).

(** ** Numeric normalisation *)

(** [series.min()] and [series.max()] of a series that is not empty. *)
Definition series_min (values : list Q) : Q :=
  match values with
  | [] => 0%Q
  | v :: vs => fold_left Qmin vs v
  end.

Definition series_max (values : list Q) : Q :=
  match values with
  | [] => 0%Q
  | v :: vs => fold_left Qmax vs v
  end.

(** The loop body of numpy's [arr_interp] for two sample points [dx0],
    [dx1] with values [dy0], [dy1]: right of the last point its value, left
    of the first point its value, from the last point on its value (the
    linear search stops there), at the first point its value, and in
    between the line through the two points; when that is NaN the line is
    taken from the other end. *)
Definition arr_interp (x_val dx0 dx1 dy0 dy1 : pyfloat) : pyfloat :=
  if isnan x_val then x_val
  else if flt dx1 x_val then dy1
  else if flt x_val dx0 then dy0
  else if fge x_val dx1 then dy1
  else if feq dx0 x_val then dy0
  else
    let slope := fdiv (fsub dy1 dy0) (fsub dx1 dx0) in
    let res := fadd (fmul slope (fsub x_val dx0)) dy0 in
    if isnan res then
      let res' := fadd (fmul slope (fsub x_val dx1)) dy1 in
      if isnan res' && feq dy0 dy1 then dy0 else res'
    else res.

(** [numpy.interp(x, [xp0, xp1], [fp0, fp1])]: the arguments are converted
    to float64 first. *)
Definition interp (x xp0 xp1 fp0 fp1 : Q) : pyfloat :=
  arr_interp (float64 x) (float64 xp0) (float64 xp1) (float64 fp0) (float64 fp1).

(** Line 228. *)
Definition normalized_val (value min_val max_val : Q) : pyfloat :=
  if negb (Qeq_bool min_val max_val)
  then interp value min_val max_val 0 1
  else Finite (1 # 2).

(** ** Drawing *)

Definition rings (g : geometry) : list (list (Q * Q)) :=
  match g with
  | Polygon exterior => [exterior]
  | MultiPolygon geoms => geoms
  end.

(** The [isinstance(..., MultiPolygon)] alternatives of lines 188-192,
    231-233: one filled trace per exterior ring. *)
Definition add_filled (g : geometry) (fillcolor line_color : colour) : M unit :=
  for_each (rings g)
    (fun ring => add_trace (FilledPolygon (map fst ring) (map snd ring) fillcolor line_color)).

(** Lines 248-251. *)
Definition add_border_trace (geom : geometry) (line_color : string) (line_width : Q) : M unit :=
  for_each (rings geom)
    (fun ring => add_trace (Outline (map fst ring) (map snd ring) (Css line_color) line_width)).

(** Lines 226-233: the choropleth of a layer whose joined values all parse,
    on the joined rows with their values. *)
Definition draw_numeric (file_info_color : string) (joined : list (feature * Q)) : M unit :=
  let min_val := series_min (map snd joined) in
  let max_val := series_max (map snd joined) in
  for_each joined
    (fun row =>
       add_filled (feat_geometry (fst row))
         (sample_colorscale "rgba(255,255,255,0)" file_info_color
            (normalized_val (snd row) min_val max_val))
         (Css "rgba(0,0,0,0)")).

(** Lines 234-246: one text marker per joined row, at the jittered centroid. *)
Definition draw_icons (L : Lib) (file_info : file_info) (joined : list (feature * list cell))
  : M unit :=
  for_each joined
    (fun user_row =>
       let c := centroid L (feat_geometry (fst user_row)) in
       let* r1 := random L in
       let jitter_x := ((r1 - (1 # 2)) * (1 # 100))%Q in
       let* r2 := random L in
       let jitter_y := ((r2 - (1 # 2)) * (1 # 100))%Q in
       add_trace (TextMarker (fst c + jitter_x)%Q (snd c + jitter_y)%Q
                    (icon file_info) 16 (Css (color file_info)))).

(** The cell of a boundary row under one of the frame's own labels. A
    geometry is no number: it stands as [None], which [pd.to_numeric] also
    coerces to NaN. *)
Fixpoint attribute_cell (name_col name : string) (labels : list string) (cells : list cell)
  (col : string) : cell :=
  match labels with
  | [] => if String.eqb col "geometry" then CNone else CNaN
  | l :: labels' =>
      if String.eqb l name_col then
        if String.eqb l col then CStr name
        else attribute_cell name_col name labels' cells col
      else
        if String.eqb l col then hd CNaN cells
        else attribute_cell name_col name labels' (tl cells) col
  end.

Definition left_cell (districts_gdf : GeoDataFrame) (row : feature) (k : nat) : cell :=
  match nth_error (gdf_columns districts_gdf) k with
  | Some col =>
      attribute_cell (district_col_name districts_gdf) (feat_name row)
        (attribute_columns districts_gdf) (feat_attributes row) col
  | None => CNaN
  end.

Fixpoint occurrences (col : string) (labels : list string) : nat :=
  match labels with
  | [] => O
  | l :: labels' => ((if String.eqb l col then 1 else 0) + occurrences col labels')%nat
  end.

(** Line 222: [user_data_gdf[value_col]], by the labels of the merged
    frame. A label that is not there is a [KeyError]; one that is there
    twice selects a frame, which [pd.to_numeric] refuses. *)
Definition joined_values (districts_gdf : GeoDataFrame) (user_df : DataFrame)
  (value_col : string) (joined : list (feature * list cell)) : R (list cell) :=
  let left := left_labels districts_gdf user_df in
  let right := right_labels districts_gdf user_df in
  match occurrences value_col (left ++ right) with
  | O => inl (KeyError value_col)
  | S O =>
      match position value_col left with
      | Some k => inr (map (fun row => left_cell districts_gdf (fst row) k) joined)
      | None => mapR (fun row => row_get right (snd row) value_col) joined
      end
  | _ => inl (TypeError "arg must be a list, tuple, 1-d array, or Series")
  end.

(** Lines 107 and 222: [pd.to_numeric(series, errors='coerce').notna().all()]. *)
Definition is_numeric (L : Lib) (series : list cell) : bool :=
  forallb (fun v => notna (to_numeric L v)) series.

Definition is_int64 (v : option number) : bool :=
  match v with Some (Int64 _) => true | _ => false end.

Definition exact_value (v : option number) : Q :=
  match v with
  | Some (Int64 n) => inject_Z n
  | Some (Float64 q) => q
  | None => 0%Q
  end.

Definition float64_value (v : option number) : Q :=
  match v with
  | Some (Int64 n) => round_nearest (inject_Z n)
  | Some (Float64 q) => q
  | None => 0%Q
  end.

(** Line 225: [pd.to_numeric(series)] of a series whose elements all
    parse: int64 when every element is an integer, float64 otherwise. *)
Definition numeric_values (L : Lib) (series : list cell) : list Q :=
  let parsed := map (to_numeric L) series in
  if forallb is_int64 parsed then map exact_value parsed else map float64_value parsed.

(** [row.geometry] on a row of [user_data_gdf]: the label [geometry] is
    gone when the layer's frame has a column of that name. *)
Definition row_geometry (user_df : DataFrame) : M unit :=
  if has_column "geometry" user_df
  then raise (AttributeError "'Series' object has no attribute 'geometry'")
  else ret tt.

(** The body of the loop of lines 195-246 for one registered layer. *)
Definition draw_layer (L : Lib) (districts_gdf : GeoDataFrame) (file_info : file_info)
  : M unit :=
  if visible file_info then
    let user_df := data file_info in
    let value_col := value_column file_info in
    if has_column "Location" user_df && negb (String.eqb value_col "") then
      let* merged := join_layer L districts_gdf user_df in
      let user_data_gdf := snd merged in
      if empty user_data_gdf then
        notify (Warning ("For '" ++ display_name file_info
                           ++ "', no matching locations were found."))
      else
        let* series :=
          lift (joined_values districts_gdf (fst merged) value_col user_data_gdf) in
        if is_numeric L series then
          row_geometry (fst merged) ;;
          draw_numeric (color file_info)
            (combine (map fst user_data_gdf) (numeric_values L series))
        else
          row_geometry (fst merged) ;;
          draw_icons L file_info user_data_gdf
    else ret tt
  else ret tt.

(** Lines 195-246. *)
Definition draw_layers (L : Lib) (districts_gdf : GeoDataFrame)
  (uploaded_files : list (string * file_info)) : M unit :=
  for_each uploaded_files (fun item => draw_layer L districts_gdf (snd item)).

(** ** Hover text *)

(** Lines 273-284: the entries one layer adds to [text_parts]. *)
Definition tooltip_entries (L : Lib) (file_info : file_info)
  (items_in_district : list (Z * list cell)) : R (list string) :=
  let user_columns := columns (data file_info) in
  let value_col := value_column file_info in
  let label := tooltip_label file_info in
  if (1 <? List.length items_in_district)%nat then
    let? lines :=
      mapR (fun item =>
              let? item_value := row_get user_columns (snd item) value_col in
              let? letter := chr (97 + fst item) in
              inr ("  " ++ letter ++ ". " ++ py_str L item_value))
        items_in_district in
    inr (("<b>" ++ label ++ ":</b>") :: lines)
  else
    match items_in_district with
    | first :: _ =>
        let? item_value := row_get user_columns (snd first) value_col in
        match py_float L item_value with
        | Some numeric_val => inr ["<b>" ++ label ++ ":</b> " ++ format_2f numeric_val]
        | None => inr ["<b>" ++ label ++ ":</b> " ++ py_str L item_value]
        end
    | [] => inr []
    end.

(** Lines 264-284 for one layer. *)
Definition layer_text_parts (L : Lib) (district_name : string) (file_info : file_info)
  : R (list string) :=
  if tooltip_visible file_info then
    let? items_in_district := select_eq (data file_info) "Location" district_name in
    if negb (empty items_in_district)
    then tooltip_entries L file_info items_in_district
    else inr []
  else inr [].

(** Lines 260-284: [text_parts] of one district. *)
Definition text_parts (L : Lib) (show_district_tooltip : bool) (district_name : string)
  (uploaded_files : list (string * file_info)) : R (list string) :=
  let? per_layer :=
    mapR (fun item => layer_text_parts L district_name (snd item)) uploaded_files in
  let district_part :=
    if show_district_tooltip then ["<b>District:</b> " ++ district_name] else [] in
  inr (List.app district_part (List.concat per_layer)).

(** Line 286. *)
Definition hover_text (parts : list string) : string := join "<br>" parts.

(** Lines 259-291 for one district. *)
Definition add_hover (L : Lib) (show_district_tooltip : bool)
  (uploaded_files : list (string * file_info)) (districts_gdf : GeoDataFrame) (row : feature)
  : M unit :=
  let* parts :=
    lift (text_parts L show_district_tooltip (district_name districts_gdf row)
            uploaded_files) in
  when (negb (empty parts))
    (for_each (rings (feat_geometry row))
       (fun ring => add_trace (HoverRegion (map fst ring) (map snd ring) (hover_text parts)))).

(** ** The render pass *)

Fixpoint dict_get {V : Type} (d : list (Z * V)) (key : Z) (default : V) : V :=
  match d with
  | [] => default
  | (k, v) :: d' => if k =? key then v else dict_get d' key default
  end.

Fixpoint enumerate_from {A : Type} (i : Z) (l : list A) : list (Z * A) :=
  match l with
  | [] => []
  | a :: l' => (i, a) :: enumerate_from (i + 1) l'
  end.

(** Lines 184-192. *)
Definition draw_provinces (T : toggles) (provinces : list feature) : M unit :=
  when (color_by_province T)
    (for_each (enumerate_from 0 provinces)
       (fun ir =>
          when (dict_get (province_visibility T) (fst ir) true)
            (let c := Css (dict_get (province_colors T) (fst ir) "#CCCCCC") in
             add_filled (feat_geometry (snd ir)) c c))).

(** Lines 253-257. *)
Definition draw_borders (L : Lib) (T : toggles) (districts provinces : list feature) : M unit :=
  when (show_district_borders T)
    (for_each districts (fun row => add_border_trace (feat_geometry row) "dimgray" (1 # 2))) ;;
  when (show_province_borders T)
    (for_each provinces (fun row => add_border_trace (feat_geometry row) "black" (3 # 2))) ;;
  for_each (dissolve L (map feat_geometry provinces))
    (fun geom => add_border_trace geom "black" (7 # 2)).

(** [d[key]] and [key in d] of a [dict] with [str] keys. *)
Fixpoint lookup {V : Type} (d : list (string * V)) (key : string) : option V :=
  match d with
  | [] => None
  | (k, v) :: d' => if String.eqb k key then Some v else lookup d' key
  end.

Definition getitem {V : Type} (d : list (string * V)) (key : string) : R V :=
  match lookup d key with
  | Some v => inr v
  | None => inl (KeyError key)
  end.

(** [[min(xs), max(xs)]]. *)
Definition extent (xs : list Q) : R (list Q) :=
  match xs with
  | [] => inl (ValueError "min() arg is an empty sequence")
  | _ => inr [series_min xs; series_max xs]
  end.

(** Lines 299-303: the axis ranges, from the stored view when it has an
    [xaxis.range], else from the exterior of the country's outline. *)
Definition view_ranges (L : Lib) (T : toggles) (provinces : list feature)
  : R (list Q * list Q) :=
  if notna (lookup (map_view T) "xaxis.range") then
    let? xaxis_range := getitem (map_view T) "xaxis.range" in
    let? yaxis_range := getitem (map_view T) "yaxis.range" in
    inr (xaxis_range, yaxis_range)
  else
    match union_all L (dissolve L (map feat_geometry provinces)) with
    | Polygon exterior =>
        let? xaxis_range := extent (map fst exterior) in
        let? yaxis_range := extent (map snd exterior) in
        inr (xaxis_range, yaxis_range)
    | MultiPolygon _ =>
        inl (AttributeError "'MultiPolygon' object has no attribute 'exterior'")
    end.

(** Lines 305-308: the view kept for the next run. *)
Definition next_map_view (L : Lib) (T : toggles) (figure : list trace)
  : list (string * list Q) :=
  match plotly_chart L figure with
  | Some relayoutData =>
      if notna (lookup relayoutData "xaxis.range") then relayoutData else map_view T
  | None => map_view T
  end.

Definition initial : state := mkState [] [] O.

(** [main], lines 179-308 and 312-314, on boundary files already read: the
    traces in draw order and the axis ranges, then the figure is shown; any
    exception ends the pass with the generic error, and the figure is not
    shown. The layout call of lines 293-297 sets constants only. *)
Definition main (L : Lib) (T : toggles) (districts_gdf : GeoDataFrame)
  (provinces : list feature) (uploaded_files : list (string * file_info)) : outcome :=
  let body :=
    draw_provinces T provinces ;;
    draw_layers L districts_gdf uploaded_files ;;
    draw_borders L T (features districts_gdf) provinces ;;
    for_each (features districts_gdf)
      (add_hover L (show_district_tooltip T) uploaded_files districts_gdf) ;;
    lift (view_ranges L T provinces) in
  match body initial with
  | (inr ranges, s) =>
      mkOutcome (Some (fig s)) (log s) (Some ranges) (next_map_view L T (fig s))
  | (inl e, s) =>
      mkOutcome None
        (List.app (log s)
           [Error "An unexpected error occurred. See details below."; ExceptionShown e])
        None (map_view T)
  end.

(** ** Upload and sidebar *)

(** Line 79: the first column whose lower-cased name is not [location]. *)
Definition find_value_column (cols : list string) : option string :=
  find (fun col => negb (String.eqb (lower col) "location")) cols.

(** Lines 74-94: what one script run does with the uploader's file. *)
Definition handle_upload (uploaded_file : option uploaded)
  (uploaded_files : list (string * file_info)) : list (string * file_info) * list message :=
  match uploaded_file with
  | None => (uploaded_files, [])
  | Some f =>
      let file_key := name f in
      if existsb (fun item => String.eqb (fst item) file_key) uploaded_files
      then (uploaded_files, [])
      else
        match read_csv f with
        | inr df =>
            match find_value_column (columns df) with
            | Some value_column =>
                if negb (String.eqb value_column "") then
                  (List.app uploaded_files
                     [(file_key,
                       mkInfo df value_column true "#FF4500" true
                         (replace ".csv" "" file_key)
                         (replace "_" " " value_column)
                         "🏞️")],
                   [])
                else
                  (uploaded_files,
                   [Error ("Could not identify a data column in '" ++ file_key
                             ++ "'. Ensure one column is 'Location'.")])
            | None =>
                (uploaded_files,
                 [Error ("Could not identify a data column in '" ++ file_key
                           ++ "'. Ensure one column is 'Location'.")])
            end
        | inl e => (uploaded_files, [Error ("Failed to read " ++ file_key ++ ": " ++ exn_str e)])
        end
  end.

(** Line 107: the classification that picks the colour or the icon control. *)
Definition sidebar_is_numeric (L : Lib) (file_info : file_info) : R bool :=
  let? series := column (data file_info) (value_column file_info) in
  inr (is_numeric L series).

(** ** Concrete data

    Stand-ins for the external functions and small boundary sets, used where
    a statement is evaluated on concrete data. *)

(** Length of a longest common subsequence. *)
Fixpoint lcs (a b : string) : nat :=
  match a with
  | EmptyString => O
  | String x a' =>
      (fix inner (b : string) : nat :=
         match b with
         | EmptyString => O
         | String y b' =>
             if Ascii.eqb x y then S (lcs a' b') else Nat.max (lcs a' b) (inner b')
         end) b
  end.

(** A similarity score in the manner of fuzzywuzzy's [ratio] on lower-cased
    strings: matched characters, counted twice, over the total length, as a
    rounded percentage. *)
Definition ratio (a b : string) : Z :=
  let total := Z.of_nat (String.length a + String.length b) in
  if total =? 0 then 100
  else round_half_even (inject_Z (200 * Z.of_nat (lcs (lower a) (lower b))) / inject_Z total)%Q.

Fixpoint digits_value (s : string) (acc : Z) : option Z :=
  match s with
  | EmptyString => Some acc
  | String c s' =>
      let n := Z.of_N (N_of_ascii c) in
      if (48 <=? n) && (n <=? 57) then digits_value s' (10 * acc + (n - 48)) else None
  end.

(** Decimal integers, with an optional minus sign; everything else does not
    parse. *)
Definition parse_int (s : string) : option Z :=
  match s with
  | EmptyString => None
  | String "-" (String c s') => option_map Z.opp (digits_value (String c s') 0)
  | _ => digits_value s 0
  end.

Definition demo_str_float (q : Q) : string :=
  if Z.eqb (Zpos (Qden q)) 1 then str_int (Qnum q) ++ ".0" else format_2f (Finite q).

(** One ring makes a polygon, several a multi-polygon. *)
Definition union_of_rings (gs : list geometry) : geometry :=
  match flat_map rings gs with
  | [ring] => Polygon ring
  | parts => MultiPolygon parts
  end.

Definition demo_lib (fuzzy : bool) : Lib :=
  mkLib (if fuzzy then Some ratio else None)
    (fun s => option_map Int64 (parse_int s))
    (fun s => option_map (fun n => float64 (inject_Z n)) (parse_int s))
    demo_str_float
    (fun g => match rings g with ((x, y) :: _) :: _ => (x, y) | _ => (0, 0)%Q end)
    (fun _ => 1 # 2)
    (fun gs => [union_of_rings gs])
    union_of_rings
    (fun _ => None).

Definition square (x0 y0 : Z) : geometry :=
  Polygon [(inject_Z x0, inject_Z y0); (inject_Z (x0 + 1), inject_Z y0);
           (inject_Z (x0 + 1), inject_Z (y0 + 1)); (inject_Z x0, inject_Z (y0 + 1));
           (inject_Z x0, inject_Z y0)].

Definition Kathmandu : feature := mkFeature "Kathmandu" [] (square 0 0).
Definition Pokhara : feature := mkFeature "Pokhara" [] (square 2 0).
Definition two_districts : GeoDataFrame := mkGeo ["DIST_EN"] [Kathmandu; Pokhara].
Definition one_province : list feature := [mkFeature "Bagmati" [] (square 0 0)].


(** A boundary file without features: the frame has no attribute column. *)
Definition no_districts : GeoDataFrame := mkGeo [] [].

(** Two provinces that do not touch: their union is a multi-polygon. *)
Definition two_provinces : list feature :=
  [mkFeature "Bagmati" [] (square 0 0); mkFeature "Gandaki" [] (square 2 0)].

Definition all_on : toggles := mkToggles true true false true [] [] [].

(** A layer as the upload handler registers it. *)
Definition layer (file_key value_column : string) (df : DataFrame) : string * file_info :=
  (file_key,
   mkInfo df value_column true "#FF4500" true
     (replace ".csv" "" file_key) (replace "_" " " value_column) "🏞️").

(** Rows [("Kathmandu", 120), ("Katmandu", 95)]. *)
Definition typo_frame : DataFrame :=
  mkFrame ["Location"; "Val"]
    [(0, [CStr "Kathmandu"; CInt 120]); (1, [CStr "Katmandu"; CInt 95])].

(** Rows [("Pokhara", 1), ("Kathmandu", 120), ("Kathmandu", 95)]. *)
Definition shifted_frame : DataFrame :=
  mkFrame ["Location"; "Val"]
    [(0, [CStr "Pokhara"; CInt 1]); (1, [CStr "Kathmandu"; CInt 120]);
     (2, [CStr "Kathmandu"; CInt 95])].

(** Rows [("Kathmandu", 120), ("Kathmandu", 95), ("Pokhara", 1)]. *)
Definition leading_frame : DataFrame :=
  mkFrame ["Location"; "Val"]
    [(0, [CStr "Kathmandu"; CInt 120]); (1, [CStr "Kathmandu"; CInt 95]);
     (2, [CStr "Pokhara"; CInt 1])].

(** Rows [("Kathmandu", "120"), ("Nowhere", "abc")]: an object column. *)
Definition mixed_frame : DataFrame :=
  mkFrame ["Location"; "Val"]
    [(0, [CStr "Kathmandu"; CStr "120"]); (1, [CStr "Nowhere"; CStr "abc"])].

(** A file with the columns [Loc] and [Val]. *)
Definition no_location_frame : DataFrame :=
  mkFrame ["Loc"; "Val"] [(0, [CStr "Kathmandu"; CInt 120])].

(** A file with the right header and no row. *)
Definition empty_frame : DataFrame := mkFrame ["Location"; "Val"] [].

(** Rows [("Kathmandu", 10), ("Pokhara", 30)]. *)
Definition spread_frame : DataFrame :=
  mkFrame ["Location"; "Val"]
    [(0, [CStr "Kathmandu"; CInt 10]); (1, [CStr "Pokhara"; CInt 30])].

(** Rows [("Kathmandu", 9007199254740992), ("Pokhara", 9007199254740993)]:
    two int64 values, 2^53 and 2^53 + 1. *)
Definition large_frame : DataFrame :=
  mkFrame ["Location"; "Val"]
    [(0, [CStr "Kathmandu"; CInt 9007199254740992]);
     (1, [CStr "Pokhara"; CInt 9007199254740993])].


(** Rows [(12, 5), (13, 7)]: district codes, read as an int64 column. *)
Definition codes_frame : DataFrame :=
  mkFrame ["Location"; "Val"] [(0, [CInt 12; CInt 5]); (1, [CInt 13; CInt 7])].

(** What [add_filled] appends to the figure. *)
Definition filled_traces (g : geometry) (fillcolor line_color : colour) : list trace :=
  map (fun ring => FilledPolygon (map fst ring) (map snd ring) fillcolor line_color) (rings g).

(** The state after appending traces and notifications. *)
Definition extend (s : state) (traces : list trace) (notes : list message) : state :=
  mkState (fig s ++ traces)%list (log s ++ notes)%list (rng s).

(** Every row has one cell per column. *)
Definition well_formed (df : DataFrame) : Prop :=
  forall r, In r (rows df) -> List.length (snd r) = List.length (columns df).

(** What [add_border_trace] appends to the figure. *)
Definition outline_traces (g : geometry) (line_color : string) (line_width : Q) : list trace :=
  map (fun ring => Outline (map fst ring) (map snd ring) (Css line_color) line_width) (rings g).

(** The hover regions of one district for given text parts. *)
Definition hover_traces (g : geometry) (parts : list string) : list trace :=
  if empty parts then []
  else map (fun ring => HoverRegion (map fst ring) (map snd ring) (hover_text parts)) (rings g).

(** The fills of lines 184-192, province by province. *)
Definition province_traces (T : toggles) (provinces : list feature) : list trace :=
  if color_by_province T then
    flat_map
      (fun ir =>
         if dict_get (province_visibility T) (fst ir) true
         then filled_traces (feat_geometry (snd ir))
                (Css (dict_get (province_colors T) (fst ir) "#CCCCCC"))
                (Css (dict_get (province_colors T) (fst ir) "#CCCCCC"))
         else [])
      (enumerate_from 0 provinces)
  else [].

(** The outlines of lines 253-257: districts, provinces, the country. *)
Definition border_traces (L : Lib) (T : toggles) (districts provinces : list feature)
  : list trace :=
  ((if show_district_borders T
    then flat_map (fun row => outline_traces (feat_geometry row) "dimgray" (1 # 2)) districts
    else []) ++
   (if show_province_borders T
    then flat_map (fun row => outline_traces (feat_geometry row) "black" (3 # 2)) provinces
    else []) ++
   flat_map (fun geom => outline_traces geom "black" (7 # 2))
     (dissolve L (map feat_geometry provinces)))%list.


Definition is_toast (m : message) : Prop := exists body, m = Toast body.

(** Nothing drawn or sent before is lost: the figure and the log of [s']
    extend those of [s], and no random number is handed out twice. *)
Definition grows (s s' : state) : Prop :=
  (exists traces, fig s' = fig s ++ traces)%list /\
  (exists notes, log s' = log s ++ notes)%list /\
  (rng s <= rng s')%nat.

(** What the hover composer needs of a layer whose tooltip is switched on:
    a [Location] column, the value column, one cell per column in every
    row, and index labels that [chr(97 + i)] accepts. *)
Definition hover_ready (file_info : file_info) : Prop :=
  tooltip_visible file_info = true ->
  has_column "Location" (data file_info) = true /\
  has_column (value_column file_info) (data file_info) = true /\
  well_formed (data file_info) /\
  (forall r, In r (rows (data file_info)) -> -97 <= fst r <= 1114014).

(** Line 134. *)
Definition default_prov_colors : list string :=
  ["#636EFA"; "#EF553B"; "#00CC96"; "#AB63FA"; "#FFA15A"; "#19D3F3"; "#FF6692"].

(** Line 152: [default_prov_colors[idx % len(default_prov_colors)]];
    [None] is an [IndexError]. *)
Definition default_prov_color (idx : Z) : option string :=
  nth_error default_prov_colors
    (Z.to_nat (idx mod Z.of_nat (List.length default_prov_colors))).


(** A computation that only ever adds to the state, also when it raises. *)
Definition monotone {A : Type} (c : M A) : Prop := forall s, grows s (snd (c s)).

(** The text parts of a district, and none when composing them raises. *)
Definition hover_parts (L : Lib) (show_district_tooltip : bool)
  (uploaded_files : list (string * file_info)) (districts_gdf : GeoDataFrame) (d : feature)
  : list string :=
  match text_parts L show_district_tooltip (district_name districts_gdf d) uploaded_files with
  | inr parts => parts
  | inl _ => []
  end.

(** The cells of a row once [df[col] = values] has written [v] into it. *)
Definition with_cell (cols : list string) (col : string) (cells : list cell) (v : cell)
  : list cell :=
  match position col cols with
  | Some k => set_nth k v cells
  | None => (cells ++ [v])%list
  end.

(** What the upload handler guarantees of every layer it has registered:
    the value column is a column of the frame, has a name, and is not named
    [location] in any letter case. *)
Definition registry_ok (uploaded_files : list (string * file_info)) : Prop :=
  forall item, In item uploaded_files ->
    has_column (value_column (snd item)) (data (snd item)) = true /\
    value_column (snd item) <> "" /\
    lower (value_column (snd item)) <> "location".

(** The two frames share no label: the merge renames nothing. *)
Definition disjoint_labels (districts_gdf : GeoDataFrame) (user_df : DataFrame) : Prop :=
  forall c, In c (columns user_df) -> ~ In c (gdf_columns districts_gdf).

(** The value of a float that is finite. *)
Definition finite_value (a : pyfloat) : option Q :=
  match unsigned a with
  | Finite q => Some q
  | _ => None
  end.

(** What [arr_interp] computes between the sample points [dx0] and [dx1]
    for the values 0 and 1, operation by operation. *)
Definition line_value (x_val dx0 dx1 : Q) : Q :=
  round_nearest
    (round_nearest (round_nearest (1 / round_nearest (dx1 - dx0)) * round_nearest (x_val - dx0))
     + 0).

(** The position of a float64 [x_val] on the ramp between [dx0] and [dx1]. *)
Definition ramp_position (x_val dx0 dx1 : Q) : Q :=
  if Qle_bool dx1 x_val then 1%Q
  else if Qle_bool x_val dx0 then 0%Q
  else line_value x_val dx0 dx1.

(** * Properties *)

(** ** The monad and its loops *)

Lemma extend_nil (s : state) : extend s [] [] = s.
Proof.
  destruct s as [f l r]. unfold extend. simpl. now rewrite !app_nil_r.
Qed.

Lemma extend_extend (s : state) (t1 t2 : list trace) (n1 n2 : list message) :
  extend (extend s t1 n1) t2 n2 = extend s (t1 ++ t2) (n1 ++ n2).
Proof.
  unfold extend. simpl. now rewrite !app_assoc.
Qed.


(** A loop whose every round only appends traces appends them in order. *)
Lemma for_each_appends {A : Type} (l : list A) (body : A -> M unit) (out : A -> list trace) :
  (forall a s, In a l -> body a s = (inr tt, extend s (out a) [])) ->
  forall s, for_each l body s = (inr tt, extend s (flat_map out l) []).
Proof.
  induction l as [|a l IH]; intros Hbody s; simpl.
  - now rewrite extend_nil.
  - unfold bind. rewrite Hbody by now left.
    rewrite IH by (intros; apply Hbody; now right).
    now rewrite extend_extend.
Qed.

Lemma add_trace_extend (t : trace) (s : state) :
  add_trace t s = (inr tt, extend s [t] []).
Proof.
  unfold add_trace, extend. now rewrite app_nil_r.
Qed.

Lemma add_filled_extend (g : geometry) (c1 c2 : colour) (s : state) :
  add_filled g c1 c2 s = (inr tt, extend s (filled_traces g c1 c2) []).
Proof.
  unfold add_filled, filled_traces.
  rewrite (for_each_appends _ _
             (fun ring => [FilledPolygon (map fst ring) (map snd ring) c1 c2])).
  - replace (flat_map (fun ring => [FilledPolygon (map fst ring) (map snd ring) c1 c2]) (rings g))
      with (map (fun ring => FilledPolygon (map fst ring) (map snd ring) c1 c2) (rings g)).
    + reflexivity.
    + induction (rings g) as [|r rs IH]; simpl; congruence.
  - intros. apply add_trace_extend.
Qed.

(** ** Minimum and maximum *)

Lemma Qmin_cases (a b : Q) : (Qmin a b = a /\ a <= b)%Q \/ (Qmin a b = b /\ b <= a)%Q.
Proof.
  unfold Qmin, GenericMinMax.gmin.
  destruct (Qcompare a b) eqn:E.
  - left. split; [reflexivity|]. apply Qeq_alt in E. rewrite E. apply Qle_refl.
  - left. split; [reflexivity|]. apply Qlt_alt in E. now apply Qlt_le_weak.
  - right. split; [reflexivity|]. apply Qgt_alt in E. now apply Qlt_le_weak.
Qed.

Lemma Qmax_cases (a b : Q) : (Qmax a b = a /\ b <= a)%Q \/ (Qmax a b = b /\ a <= b)%Q.
Proof.
  unfold Qmax, GenericMinMax.gmax.
  destruct (Qcompare a b) eqn:E.
  - left. split; [reflexivity|]. apply Qeq_alt in E. rewrite E. apply Qle_refl.
  - right. split; [reflexivity|]. apply Qlt_alt in E. now apply Qlt_le_weak.
  - left. split; [reflexivity|]. apply Qgt_alt in E. now apply Qlt_le_weak.
Qed.

Lemma fold_min_spec (vs : list Q) (v : Q) :
  In (fold_left Qmin vs v) (v :: vs) /\
  (forall x, In x (v :: vs) -> fold_left Qmin vs v <= x)%Q.
Proof.
  revert v. induction vs as [|w vs IH]; intros v; simpl.
  - split; [now left|]. intros x [<-|[]]. apply Qle_refl.
  - destruct (IH (Qmin v w)) as [Hin Hle]. split.
    + destruct Hin as [Hin|Hin]; [|now right; right].
      destruct (Qmin_cases v w) as [[E _]|[E _]]; rewrite E in Hin |- *; simpl; auto.
    + intros x Hx.
      assert (Hm : (fold_left Qmin vs (Qmin v w) <= Qmin v w)%Q) by (apply Hle; now left).
      destruct Hx as [<-|[<-|Hx]].
      * eapply Qle_trans; [exact Hm|].
        destruct (Qmin_cases v w) as [[E H]|[E H]]; rewrite E; [apply Qle_refl|exact H].
      * eapply Qle_trans; [exact Hm|].
        destruct (Qmin_cases v w) as [[E H]|[E H]]; rewrite E; [exact H|apply Qle_refl].
      * apply Hle. now right.
Qed.

Lemma fold_max_spec (vs : list Q) (v : Q) :
  In (fold_left Qmax vs v) (v :: vs) /\
  (forall x, In x (v :: vs) -> x <= fold_left Qmax vs v)%Q.
Proof.
  revert v. induction vs as [|w vs IH]; intros v; simpl.
  - split; [now left|]. intros x [<-|[]]. apply Qle_refl.
  - destruct (IH (Qmax v w)) as [Hin Hle]. split.
    + destruct Hin as [Hin|Hin]; [|now right; right].
      destruct (Qmax_cases v w) as [[E _]|[E _]]; rewrite E in Hin |- *; simpl; auto.
    + intros x Hx.
      assert (Hm : (Qmax v w <= fold_left Qmax vs (Qmax v w))%Q) by (apply Hle; now left).
      destruct Hx as [<-|[<-|Hx]].
      * eapply Qle_trans; [|exact Hm].
        destruct (Qmax_cases v w) as [[E H]|[E H]]; rewrite E; [apply Qle_refl|exact H].
      * eapply Qle_trans; [|exact Hm].
        destruct (Qmax_cases v w) as [[E H]|[E H]]; rewrite E; [exact H|apply Qle_refl].
      * apply Hle. now right.
Qed.

(** The minimum of a series that is not empty is one of its values and
    bounds them all from below. *)
Lemma series_min_spec (values : list Q) :
  values <> [] ->
  In (series_min values) values /\ (forall x, In x values -> series_min values <= x)%Q.
Proof.
  destruct values as [|v vs]; [congruence|]. intros _. apply fold_min_spec.
Qed.

Lemma series_max_spec (values : list Q) :
  values <> [] ->
  In (series_max values) values /\ (forall x, In x values -> x <= series_max values)%Q.
Proof.
  destruct values as [|v vs]; [congruence|]. intros _. apply fold_max_spec.
Qed.

Lemma series_min_le_max (values : list Q) : (series_min values <= series_max values)%Q.
Proof.
  destruct values as [|v vs]; [apply Qle_refl|].
  assert (H : v :: vs <> []) by congruence.
  destruct (series_min_spec _ H) as [_ Hmin], (series_max_spec _ H) as [_ Hmax].
  eapply Qle_trans; [apply Hmin|apply Hmax]; now left.
Qed.

Lemma Qle_bool_false (a b : Q) : Qle_bool a b = false <-> (b < a)%Q.
Proof.
  split.
  - intros H. apply Qnot_le_lt. intros Hle. apply Qle_bool_iff in Hle. congruence.
  - intros H. destruct (Qle_bool a b) eqn:E; [|reflexivity].
    apply Qle_bool_iff in E. exfalso. exact (Qlt_not_le _ _ H E).
Qed.

Lemma Qeq_bool_false (a b : Q) : Qeq_bool a b = false <-> ~ (a == b)%Q.
Proof.
  split.
  - intros H E. apply Qeq_bool_iff in E. congruence.
  - intros H. destruct (Qeq_bool a b) eqn:E; [|reflexivity].
    apply Qeq_bool_iff in E. contradiction.
Qed.

(** ** Rounding to an integer *)

Lemma round_half_even_spec (q : Q) :
  (round_half_even q = Qfloor q /\ (q - inject_Z (Qfloor q) <= 1 # 2)%Q /\
   ((q - inject_Z (Qfloor q) == 1 # 2)%Q -> Z.even (Qfloor q) = true)) \/
  (round_half_even q = Qfloor q + 1 /\ (1 # 2 <= q - inject_Z (Qfloor q))%Q /\
   ((q - inject_Z (Qfloor q) == 1 # 2)%Q -> Z.even (Qfloor q) = false)).
Proof.
  destruct q as [n d]. unfold round_half_even, Qfloor. cbn [Qnum Qden].
  pose proof (Z.div_mod n (Zpos d) ltac:(lia)) as Hdm.
  pose proof (Z.mod_pos_bound n (Zpos d) ltac:(lia)) as Hb.
  set (f := n / Zpos d) in *. set (r := n mod Zpos d) in *.
  assert (Hle : ((n # d) - inject_Z f <= 1 # 2)%Q <-> 2 * r <= Zpos d).
  { unfold Qle, Qminus, Qplus, Qopp, inject_Z. cbn [Qnum Qden].
    rewrite ?Pos2Z.inj_mul. nia. }
  assert (Hge : ((1 # 2) <= (n # d) - inject_Z f)%Q <-> Zpos d <= 2 * r).
  { unfold Qle, Qminus, Qplus, Qopp, inject_Z. cbn [Qnum Qden].
    rewrite ?Pos2Z.inj_mul. nia. }
  assert (Heq : ((n # d) - inject_Z f == 1 # 2)%Q <-> 2 * r = Zpos d).
  { unfold Qeq, Qminus, Qplus, Qopp, inject_Z. cbn [Qnum Qden].
    rewrite ?Pos2Z.inj_mul. nia. }
  destruct (2 * r <? Zpos d) eqn:E1.
  - apply Z.ltb_lt in E1. left. split; [reflexivity|]. split.
    + apply Hle. lia.
    + intros H. apply Heq in H. lia.
  - apply Z.ltb_ge in E1. destruct (Zpos d <? 2 * r) eqn:E2.
    + apply Z.ltb_lt in E2. right. split; [reflexivity|]. split.
      * apply Hge. lia.
      * intros H. apply Heq in H. lia.
    + apply Z.ltb_ge in E2. destruct (Z.even f) eqn:E3.
      * left. split; [reflexivity|]. split; [apply Hle; lia|reflexivity].
      * right. split; [reflexivity|]. split; [apply Hge; lia|reflexivity].
Qed.

Lemma round_half_even_bounds (q : Q) :
  (q - (1 # 2) <= inject_Z (round_half_even q))%Q /\
  (inject_Z (round_half_even q) <= q + (1 # 2))%Q.
Proof.
  pose proof (Qfloor_le q) as H1. pose proof (Qlt_floor q) as H2.
  rewrite inject_Z_plus in H2. change (inject_Z 1) with 1%Q in H2.
  destruct (round_half_even_spec q) as [(-> & Hle & _)|(-> & Hge & _)].
  - generalize dependent (inject_Z (Qfloor q)). intros f; intros. split; lra.
  - rewrite inject_Z_plus. change (inject_Z 1) with 1%Q in *.
    generalize dependent (inject_Z (Qfloor q)). intros f; intros.
    split; lra.
Qed.

Lemma round_half_even_proper (a b : Q) :
  (a == b)%Q -> round_half_even a = round_half_even b.
Proof.
  intros E. pose proof (Qfloor_comp a b E) as Hf.
  destruct (round_half_even_spec a) as [(Ha & La & Ta)|(Ha & La & Ta)],
           (round_half_even_spec b) as [(Hb & Lb & Tb)|(Hb & Lb & Tb)];
    rewrite Ha, Hb, <- ?Hf; try reflexivity.
  - rewrite <- Hf in *. assert (H : (a - inject_Z (Qfloor a) == 1 # 2)%Q) by lra.
    specialize (Ta H). assert (H' : (b - inject_Z (Qfloor a) == 1 # 2)%Q) by lra.
    specialize (Tb H'). congruence.
  - rewrite <- Hf in *. assert (H : (a - inject_Z (Qfloor a) == 1 # 2)%Q) by lra.
    specialize (Ta H). assert (H' : (b - inject_Z (Qfloor a) == 1 # 2)%Q) by lra.
    specialize (Tb H'). congruence.
Qed.

Lemma round_half_even_monotone (a b : Q) :
  (a <= b)%Q -> round_half_even a <= round_half_even b.
Proof.
  intros Hab.
  destruct (Z_le_gt_dec (round_half_even a) (round_half_even b)) as [H|H]; [exact H|].
  exfalso.
  destruct (round_half_even_bounds a) as [_ Ua].
  destruct (round_half_even_bounds b) as [Lb _].
  assert (Hz : (inject_Z (round_half_even b) + 1 <= inject_Z (round_half_even a))%Q).
  { change 1%Q with (inject_Z 1). rewrite <- inject_Z_plus. rewrite <- Zle_Qle. lia. }
  assert (Eab : (a == b)%Q) by lra.
  apply round_half_even_proper in Eab. lia.
Qed.

Lemma round_half_even_integer (q : Q) (z : Z) :
  (q == inject_Z z)%Q -> round_half_even q = z.
Proof.
  intros E. destruct (round_half_even_bounds q) as [Lo Up].
  assert (H1 : (inject_Z z < inject_Z (round_half_even q) + 1)%Q) by lra.
  assert (H2 : (inject_Z (round_half_even q) < inject_Z z + 1)%Q) by lra.
  change 1%Q with (inject_Z 1) in H1, H2.
  rewrite <- inject_Z_plus in H1, H2.
  rewrite <- Zlt_Qlt in H1, H2. lia.
Qed.

(** ** Powers of two *)

Lemma pow2_pos (k : Z) : (0 < 2 ^ k)%Q.
Proof. apply Qpower_0_lt. reflexivity. Qed.

Lemma pow2_plus (a b : Z) : (2 ^ (a + b) == 2 ^ a * 2 ^ b)%Q.
Proof. apply Qpower_plus. discriminate. Qed.

Lemma pow2_le (a b : Z) : a <= b -> (2 ^ a <= 2 ^ b)%Q.
Proof. intros H. apply Qpower_le_compat_l; [exact H|discriminate]. Qed.

Lemma pow2_lt_inv (a b : Z) : (2 ^ a < 2 ^ b)%Q -> a < b.
Proof. intros H. apply (Qpower_lt_compat_l_inv 2); [exact H|reflexivity]. Qed.

Lemma pow2_Z (n : Z) : 0 <= n -> (inject_Z (2 ^ n) == 2 ^ n)%Q.
Proof. intros H. now rewrite Zpower_Qpower. Qed.

Lemma pow2_cancel (k : Z) : (2 ^ (- k) * 2 ^ k == 1)%Q.
Proof. rewrite <- pow2_plus. replace (- k + k) with 0 by lia. reflexivity. Qed.

(** ** The binary exponent *)

Lemma exponent_spec (y : Q) :
  (0 < y)%Q -> (2 ^ exponent y <= y)%Q /\ (y < 2 ^ (exponent y + 1))%Q.
Proof.
  intros Hy. unfold exponent.
  destruct y as [n d].
  assert (Hn : 0 < n) by (unfold Qlt in Hy; simpl in Hy; lia).
  cbn [Qnum Qden].
  set (a := Z.log2 n). set (b := Z.log2 (Zpos d)).
  destruct (Z.log2_spec n Hn) as [Ha1 Ha2]. fold a in Ha1, Ha2.
  destruct (Z.log2_spec (Zpos d) ltac:(lia)) as [Hb1 Hb2]. fold b in Hb1, Hb2.
  assert (Ha0 : 0 <= a) by apply Z.log2_nonneg.
  assert (Hb0 : 0 <= b) by apply Z.log2_nonneg.
  assert (HN1 : (2 ^ a <= inject_Z n)%Q).
  { rewrite <- pow2_Z by lia. now rewrite <- Zle_Qle. }
  assert (HN2 : (inject_Z n < 2 ^ (a + 1))%Q).
  { rewrite <- pow2_Z by lia. rewrite <- Zlt_Qlt. now rewrite <- Z.add_1_r in Ha2. }
  assert (HD1 : (2 ^ b <= inject_Z (Zpos d))%Q).
  { rewrite <- pow2_Z by lia. now rewrite <- Zle_Qle. }
  assert (HD2 : (inject_Z (Zpos d) < 2 ^ (b + 1))%Q).
  { rewrite <- pow2_Z by lia. rewrite <- Zlt_Qlt. now rewrite <- Z.add_1_r in Hb2. }
  assert (HD0 : (0 < inject_Z (Zpos d))%Q) by (unfold Qlt; simpl; lia).
  assert (Hy' : ((n # d) * inject_Z (Zpos d) == inject_Z n)%Q).
  { rewrite (Qmake_Qdiv n d). field. intros H. rewrite H in HD0. discriminate. }
  destruct (Qle_bool (2 ^ (a - b)) (n # d)) eqn:E.
  - apply Qle_bool_iff in E. split; [exact E|].
    apply (Qmult_lt_r _ _ (inject_Z (Zpos d)) HD0). rewrite Hy'.
    apply (Qlt_le_trans _ (2 ^ (a + 1))); [exact HN2|].
    replace (a + 1) with (a - b + 1 + b) by lia. rewrite (pow2_plus (a - b + 1) b).
    apply Qmult_le_l; [apply pow2_pos|exact HD1].
  - assert (E' : ((n # d) < 2 ^ (a - b))%Q).
    { apply Qnot_le_lt. intros H. apply Qle_bool_iff in H. congruence. }
    split.
    + apply (Qmult_le_r _ _ (inject_Z (Zpos d)) HD0). rewrite Hy'.
      apply (Qle_trans _ (2 ^ a)); [|exact HN1].
      replace a with (a - b - 1 + (b + 1)) at 2 by lia.
      rewrite (pow2_plus (a - b - 1) (b + 1)).
      apply Qmult_le_l; [apply pow2_pos|]. now apply Qlt_le_weak.
    + now replace (a - b - 1 + 1) with (a - b) by lia.
Qed.

Lemma exponent_unique (y : Q) (e : Z) :
  (2 ^ e <= y)%Q -> (y < 2 ^ (e + 1))%Q -> exponent y = e.
Proof.
  intros H1 H2.
  assert (Hy : (0 < y)%Q) by (apply (Qlt_le_trans _ (2 ^ e)); [apply pow2_pos|exact H1]).
  destruct (exponent_spec y Hy) as [E1 E2].
  assert (A : exponent y < e + 1) by (apply pow2_lt_inv; eapply Qle_lt_trans; eassumption).
  assert (B : e < exponent y + 1) by (apply pow2_lt_inv; eapply Qle_lt_trans; eassumption).
  lia.
Qed.

Lemma exponent_proper (a b : Q) : (0 < a)%Q -> (a == b)%Q -> exponent a = exponent b.
Proof.
  intros Ha E. destruct (exponent_spec a Ha) as [E1 E2].
  symmetry. apply exponent_unique; now rewrite <- E.
Qed.

Lemma exponent_monotone (a b : Q) :
  (0 < a)%Q -> (a <= b)%Q -> exponent a <= exponent b.
Proof.
  intros Ha Hab.
  assert (Hb : (0 < b)%Q) by (eapply Qlt_le_trans; eassumption).
  destruct (exponent_spec a Ha) as [A1 _]. destruct (exponent_spec b Hb) as [_ B2].
  assert (H : exponent a < exponent b + 1).
  { apply pow2_lt_inv. eapply Qle_lt_trans; [exact A1|]. eapply Qle_lt_trans; eassumption. }
  lia.
Qed.

Lemma exponent_ge (y : Q) (j : Z) : (2 ^ j <= y)%Q -> j <= exponent y.
Proof.
  intros H.
  assert (Hy : (0 < y)%Q) by (apply (Qlt_le_trans _ (2 ^ j)); [apply pow2_pos|exact H]).
  destruct (exponent_spec y Hy) as [_ E2].
  assert (A : j < exponent y + 1) by (apply pow2_lt_inv; eapply Qle_lt_trans; eassumption).
  lia.
Qed.

(** ** Rounding a positive number *)

Lemma quantum_proper (a b : Q) : (0 < a)%Q -> (a == b)%Q -> quantum a = quantum b.
Proof. intros Ha E. unfold quantum. now rewrite (exponent_proper a b Ha E). Qed.

Lemma quantum_monotone (a b : Q) : (0 < a)%Q -> (a <= b)%Q -> quantum a <= quantum b.
Proof.
  intros Ha Hab. unfold quantum.
  pose proof (exponent_monotone a b Ha Hab). lia.
Qed.

Lemma round_positive_value (y : Q) :
  (round_positive y == inject_Z (round_half_even (y * 2 ^ (- quantum y))) * 2 ^ quantum y)%Q.
Proof. unfold round_positive. apply Qred_correct. Qed.

Lemma round_positive_proper (a b : Q) :
  (0 < a)%Q -> (a == b)%Q -> round_positive a = round_positive b.
Proof.
  intros Ha E. unfold round_positive. rewrite (quantum_proper a b Ha E).
  apply Qred_complete.
  rewrite (round_half_even_proper (a * 2 ^ (- quantum b)) (b * 2 ^ (- quantum b)));
    [reflexivity|now rewrite E].
Qed.

(** Scaling by the quantum and back. *)
Lemma scaled_le (x y : Q) (k : Z) :
  (x <= y)%Q -> (x * 2 ^ k <= y * 2 ^ k)%Q.
Proof. intros H. apply Qmult_le_compat_r; [exact H|apply Qlt_le_weak, pow2_pos]. Qed.

Lemma scaled_pow (j k : Z) : (2 ^ j * 2 ^ (- k) == 2 ^ (j - k))%Q.
Proof. rewrite <- pow2_plus. now replace (j + - k) with (j - k) by lia. Qed.

Lemma round_positive_nonneg (y : Q) : (0 <= y)%Q -> (0 <= round_positive y)%Q.
Proof.
  intros Hy. rewrite round_positive_value.
  apply Qmult_le_0_compat; [|apply Qlt_le_weak, pow2_pos].
  change 0%Q with (inject_Z 0). rewrite <- Zle_Qle.
  rewrite <- (round_half_even_integer 0 0) by reflexivity.
  apply round_half_even_monotone.
  apply Qmult_le_0_compat; [exact Hy|apply Qlt_le_weak, pow2_pos].
Qed.

(** A power of two above [y] is above its rounding. *)
Lemma round_positive_le_pow (y : Q) (j : Z) :
  (0 < y)%Q -> (y <= 2 ^ j)%Q -> (round_positive y <= 2 ^ j)%Q.
Proof.
  intros Hy Hj. rewrite round_positive_value. set (k := quantum y).
  assert (Hs : (y * 2 ^ (- k) <= 2 ^ (j - k))%Q).
  { rewrite <- scaled_pow. now apply scaled_le. }
  destruct (Z_le_gt_dec k j) as [Hkj|Hkj].
  - assert (Hr : round_half_even (y * 2 ^ (- k)) <= 2 ^ (j - k)).
    { rewrite <- (round_half_even_integer (2 ^ (j - k)) (2 ^ (j - k)))
        by (now rewrite pow2_Z by lia).
      now apply round_half_even_monotone. }
    apply (Qle_trans _ (inject_Z (2 ^ (j - k)) * 2 ^ k)).
    + apply scaled_le. now rewrite <- Zle_Qle.
    + rewrite pow2_Z by lia. rewrite <- pow2_plus.
      replace (j - k + k) with j by lia. apply Qle_refl.
  - assert (Hhalf : (2 ^ (j - k) <= 1 # 2)%Q).
    { change (1 # 2)%Q with (2 ^ (-1))%Q. apply pow2_le. lia. }
    assert (Hr : round_half_even (y * 2 ^ (- k)) <= 0).
    { change 0 with (round_half_even (1 # 2)).
      apply round_half_even_monotone. eapply Qle_trans; eassumption. }
    apply (Qle_trans _ (inject_Z 0 * 2 ^ k)).
    + apply scaled_le. now rewrite <- Zle_Qle.
    + rewrite Qmult_0_l. apply Qlt_le_weak, pow2_pos.
Qed.

(** A power of two below [y], not below the smallest float, is below its
    rounding. *)
Lemma round_positive_ge_pow (y : Q) (j : Z) :
  -1074 <= j -> (2 ^ j <= y)%Q -> (2 ^ j <= round_positive y)%Q.
Proof.
  intros Hj Hy.
  assert (Hpos : (0 < y)%Q) by (apply (Qlt_le_trans _ (2 ^ j)); [apply pow2_pos|exact Hy]).
  pose proof (exponent_ge y j Hy) as He.
  destruct (exponent_spec y Hpos) as [E1 _].
  rewrite round_positive_value. set (k := quantum y).
  assert (Hk : k <= exponent y) by (unfold k, quantum; lia).
  assert (Hs : (2 ^ (exponent y - k) <= y * 2 ^ (- k))%Q).
  { rewrite <- scaled_pow. now apply scaled_le. }
  assert (Hr : 2 ^ (exponent y - k) <= round_half_even (y * 2 ^ (- k))).
  { rewrite <- (round_half_even_integer (2 ^ (exponent y - k)) (2 ^ (exponent y - k)))
      by (now rewrite pow2_Z by lia).
    now apply round_half_even_monotone. }
  apply (Qle_trans _ (2 ^ exponent y)); [now apply pow2_le|].
  apply (Qle_trans _ (inject_Z (2 ^ (exponent y - k)) * 2 ^ k)).
  - rewrite pow2_Z by lia. rewrite <- pow2_plus.
    replace (exponent y - k + k) with (exponent y) by lia. apply Qle_refl.
  - apply scaled_le. now rewrite <- Zle_Qle.
Qed.

Lemma round_positive_monotone (a b : Q) :
  (0 < a)%Q -> (a <= b)%Q -> (round_positive a <= round_positive b)%Q.
Proof.
  intros Ha Hab.
  assert (Hb : (0 < b)%Q) by (eapply Qlt_le_trans; eassumption).
  pose proof (quantum_monotone a b Ha Hab) as Hk.
  destruct (Z.eq_dec (quantum a) (quantum b)) as [E|E].
  - rewrite !round_positive_value, E. apply scaled_le. rewrite <- Zle_Qle.
    apply round_half_even_monotone. now apply scaled_le.
  - assert (Hlt : quantum a < quantum b) by lia.
    destruct (exponent_spec a Ha) as [_ A2].
    assert (Hea : exponent a + 1 <= exponent b) by (unfold quantum in Hlt; lia).
    assert (Heb : -1074 <= exponent b) by (unfold quantum in Hlt; lia).
    destruct (exponent_spec b Hb) as [B1 _].
    apply (Qle_trans _ (2 ^ (exponent a + 1))).
    + apply round_positive_le_pow; [exact Ha|now apply Qlt_le_weak].
    + apply (Qle_trans _ (2 ^ exponent b)); [now apply pow2_le|].
      now apply round_positive_ge_pow.
Qed.

(** In the normal range the rounding error is at most [2 ^ -53] of [y]. *)
Lemma round_positive_upper (y : Q) :
  (2 ^ (-1022) <= y)%Q -> (round_positive y <= y * (1 + 2 ^ (-53)))%Q.
Proof.
  intros Hy.
  assert (Hpos : (0 < y)%Q)
    by (apply (Qlt_le_trans _ (2 ^ (-1022))); [apply pow2_pos|exact Hy]).
  pose proof (exponent_ge y (-1022) Hy) as He.
  destruct (exponent_spec y Hpos) as [E1 _].
  rewrite round_positive_value.
  assert (Hk : quantum y = exponent y - 52) by (unfold quantum; lia).
  set (k := quantum y) in *.
  destruct (round_half_even_bounds (y * 2 ^ (- k))) as [_ Up].
  apply (Qle_trans _ ((y * 2 ^ (- k) + (1 # 2)) * 2 ^ k)).
  - now apply scaled_le.
  - assert (H1 : (y * 2 ^ (- k) * 2 ^ k == y)%Q).
    { rewrite <- Qmult_assoc, pow2_cancel. ring. }
    assert (H2 : ((1 # 2) * 2 ^ k == 2 ^ exponent y * 2 ^ (-53))%Q).
    { change (1 # 2)%Q with (2 ^ (-1))%Q. rewrite <- !pow2_plus.
      now replace (-1 + k) with (exponent y + -53) by lia. }
    rewrite Qmult_plus_distr_l, H1, H2.
    rewrite Qmult_plus_distr_r, Qmult_1_r.
    apply Qplus_le_r. apply Qmult_le_compat_r; [exact E1|].
    apply Qlt_le_weak, pow2_pos.
Qed.

(** ** Rounding to the nearest float64 *)

Lemma sign_cases (q : Q) :
  (Qnum q = 0 /\ (q == 0)%Q) \/
  ((exists p, Qnum q = Zpos p) /\ (0 < q)%Q) \/
  ((exists p, Qnum q = Zneg p) /\ (q < 0)%Q).
Proof.
  destruct q as [[|p|p] d].
  - left. split; reflexivity.
  - right. left. split; [now exists p|reflexivity].
  - right. right. split; [now exists p|reflexivity].
Qed.

Lemma round_nearest_zero (q : Q) : (q == 0)%Q -> round_nearest q = 0%Q.
Proof.
  intros E. destruct (sign_cases q) as [[H _]|[[_ H]|[_ H]]].
  - unfold round_nearest. now rewrite H.
  - rewrite E in H. discriminate.
  - rewrite E in H. discriminate.
Qed.

Lemma round_nearest_pos (q : Q) : (0 < q)%Q -> round_nearest q = round_positive q.
Proof.
  intros Hq. destruct (sign_cases q) as [[_ H]|[[[p H] _]|[_ H]]].
  - rewrite H in Hq. discriminate.
  - unfold round_nearest. now rewrite H.
  - exfalso. apply (Qlt_irrefl 0). eapply Qlt_trans; eassumption.
Qed.

Lemma round_nearest_neg (q : Q) :
  (q < 0)%Q -> round_nearest q = (- round_positive (- q))%Q.
Proof.
  intros Hq. destruct (sign_cases q) as [[_ H]|[[_ H]|[[p H] _]]].
  - rewrite H in Hq. discriminate.
  - exfalso. apply (Qlt_irrefl 0). eapply Qlt_trans; eassumption.
  - unfold round_nearest. now rewrite H.
Qed.

Lemma round_nearest_proper (a b : Q) : (a == b)%Q -> round_nearest a = round_nearest b.
Proof.
  intros E. destruct (sign_cases a) as [[_ H]|[[_ H]|[_ H]]].
  - rewrite (round_nearest_zero a H), (round_nearest_zero b); [reflexivity|now rewrite <- E].
  - rewrite (round_nearest_pos a H), (round_nearest_pos b) by now rewrite <- E.
    now apply round_positive_proper.
  - rewrite (round_nearest_neg a H), (round_nearest_neg b) by now rewrite <- E.
    f_equal. apply round_positive_proper; [lra|now rewrite E].
Qed.

Lemma round_nearest_nonneg (q : Q) : (0 <= q)%Q -> (0 <= round_nearest q)%Q.
Proof.
  intros Hq. destruct (sign_cases q) as [[_ H]|[[_ H]|[_ H]]].
  - rewrite (round_nearest_zero q H). apply Qle_refl.
  - rewrite (round_nearest_pos q H). now apply round_positive_nonneg.
  - exfalso. lra.
Qed.

Lemma round_nearest_nonpos (q : Q) : (q <= 0)%Q -> (round_nearest q <= 0)%Q.
Proof.
  intros Hq. destruct (sign_cases q) as [[_ H]|[[_ H]|[_ H]]].
  - rewrite (round_nearest_zero q H). apply Qle_refl.
  - exfalso. lra.
  - rewrite (round_nearest_neg q H).
    assert (H0 : (0 <= round_positive (- q))%Q) by (apply round_positive_nonneg; lra).
    lra.
Qed.

Lemma round_nearest_monotone (a b : Q) :
  (a <= b)%Q -> (round_nearest a <= round_nearest b)%Q.
Proof.
  intros Hab. destruct (sign_cases a) as [[_ Ha]|[[_ Ha]|[_ Ha]]].
  - rewrite (round_nearest_zero a Ha). apply round_nearest_nonneg. lra.
  - rewrite (round_nearest_pos a Ha), (round_nearest_pos b) by lra.
    now apply round_positive_monotone.
  - destruct (Qlt_le_dec b 0) as [Hb|Hb].
    + rewrite (round_nearest_neg a Ha), (round_nearest_neg b Hb).
      apply Qopp_le_compat. apply round_positive_monotone; lra.
    + apply (Qle_trans _ 0).
      * apply round_nearest_nonpos. lra.
      * now apply round_nearest_nonneg.
Qed.

Lemma round_nearest_le_pow (q : Q) (j : Z) :
  (q <= 2 ^ j)%Q -> (round_nearest q <= 2 ^ j)%Q.
Proof.
  intros Hq. destruct (Qlt_le_dec 0 q) as [H|H].
  - rewrite (round_nearest_pos q H). now apply round_positive_le_pow.
  - apply (Qle_trans _ 0); [now apply round_nearest_nonpos|].
    apply Qlt_le_weak, pow2_pos.
Qed.

Lemma round_nearest_ge_opp_pow (q : Q) (j : Z) :
  (- 2 ^ j <= q)%Q -> (- 2 ^ j <= round_nearest q)%Q.
Proof.
  intros Hq. destruct (Qlt_le_dec q 0) as [H|H].
  - rewrite (round_nearest_neg q H).
    apply Qopp_le_compat. apply round_positive_le_pow; lra.
  - apply (Qle_trans _ 0); [|now apply round_nearest_nonneg].
    pose proof (pow2_pos j). lra.
Qed.

Lemma round_nearest_ge_pow (q : Q) (j : Z) :
  -1074 <= j -> (2 ^ j <= q)%Q -> (2 ^ j <= round_nearest q)%Q.
Proof.
  intros Hj Hq.
  assert (Hpos : (0 < q)%Q) by (apply (Qlt_le_trans _ (2 ^ j)); [apply pow2_pos|exact Hq]).
  rewrite (round_nearest_pos q Hpos). now apply round_positive_ge_pow.
Qed.

Lemma round_nearest_upper (q : Q) :
  (2 ^ (-1022) <= q)%Q -> (round_nearest q <= q * (1 + 2 ^ (-53)))%Q.
Proof.
  intros Hq.
  assert (Hpos : (0 < q)%Q)
    by (apply (Qlt_le_trans _ (2 ^ (-1022))); [apply pow2_pos|exact Hq]).
  rewrite (round_nearest_pos q Hpos). now apply round_positive_upper.
Qed.

(** A number of magnitude at most [2 ^ 1023] rounds to a finite float64. *)
Lemma float64_finite (q : Q) :
  (Qabs q <= 2 ^ 1023)%Q -> float64 q = Finite (round_nearest q).
Proof.
  intros Hq. apply Qabs_Qle_condition in Hq. destruct Hq as [Lo Up].
  unfold float64.
  assert (H : (Qabs (round_nearest q) <= 2 ^ 1023)%Q).
  { apply Qabs_Qle_condition. split.
    - now apply round_nearest_ge_opp_pow.
    - now apply round_nearest_le_pow. }
  assert (Hlt : (2 ^ 1023 < 2 ^ 1024)%Q)
    by (apply Qpower_lt_compat_l; [lia|reflexivity]).
  destruct (Qle_bool (2 ^ 1024) (Qabs (round_nearest q))) eqn:E; [|reflexivity].
  apply Qle_bool_iff in E. exfalso.
  apply (Qlt_irrefl (2 ^ 1023)). eapply Qlt_le_trans; [exact Hlt|].
  eapply Qle_trans; eassumption.
Qed.

Lemma float64_proper (a b : Q) : (a == b)%Q -> float64 a = float64 b.
Proof. intros E. unfold float64. now rewrite (round_nearest_proper a b E). Qed.

(** ** Float64 arithmetic without overflow *)

Lemma fsub_finite (x y : Q) :
  (Qabs (x - y) <= 2 ^ 1023)%Q -> fsub (Finite x) (Finite y) = Finite (round_nearest (x - y)).
Proof. intros H. unfold fsub, fadd, fneg. simpl. now apply float64_finite. Qed.

Lemma fadd_finite (x y : Q) :
  (Qabs (x + y) <= 2 ^ 1023)%Q -> fadd (Finite x) (Finite y) = Finite (round_nearest (x + y)).
Proof. intros H. unfold fadd. simpl. now apply float64_finite. Qed.

Lemma fmul_finite (x y : Q) :
  (Qabs (x * y) <= 2 ^ 1023)%Q -> fmul (Finite x) (Finite y) = Finite (round_nearest (x * y)).
Proof. intros H. unfold fmul. simpl. now apply float64_finite. Qed.

Lemma fdiv_finite (x y : Q) :
  ~ (y == 0)%Q -> (Qabs (x / y) <= 2 ^ 1023)%Q ->
  fdiv (Finite x) (Finite y) = Finite (round_nearest (x / y)).
Proof.
  intros Hy H. unfold fdiv. simpl.
  destruct (Qeq_bool y 0) eqn:E; [apply Qeq_bool_iff in E; contradiction|].
  now apply float64_finite.
Qed.

Lemma within (q : Q) (j k : Z) :
  j <= k -> (0 <= q)%Q -> (q <= 2 ^ j)%Q -> (Qabs q <= 2 ^ k)%Q.
Proof.
  intros Hjk H0 H. rewrite Qabs_pos by exact H0.
  eapply Qle_trans; [exact H|]. now apply pow2_le.
Qed.

Lemma inverse_bounds (D : Q) :
  (2 ^ (-1022) <= D)%Q -> (D <= 2 ^ 1022)%Q ->
  (0 < D)%Q /\ (2 ^ (-1022) <= 1 / D)%Q /\ (1 / D <= 2 ^ 1022)%Q.
Proof.
  intros Lo Up.
  assert (HD : (0 < D)%Q) by (eapply Qlt_le_trans; [apply (pow2_pos (-1022))|exact Lo]).
  split; [exact HD|]. split.
  - apply Qle_shift_div_l; [exact HD|].
    apply (Qle_trans _ (2 ^ (-1022) * 2 ^ 1022)).
    + apply Qmult_le_l; [apply pow2_pos|exact Up].
    + rewrite <- pow2_plus. apply Qle_refl.
  - apply Qle_shift_div_r; [exact HD|].
    apply (Qle_trans _ (2 ^ 1022 * 2 ^ (-1022))).
    + rewrite <- pow2_plus. apply Qle_refl.
    + apply Qmult_le_l; [apply pow2_pos|exact Lo].
Qed.

(** ** The line between two sample points

    The sample points [dx0] and [dx1] are float64 values apart by at least
    the smallest normal number and at most [2 ^ 1022]. *)

Lemma ramp_gap (dx0 dx1 : Q) :
  (2 ^ (-1022) <= dx1 - dx0)%Q -> (dx1 - dx0 <= 2 ^ 1022)%Q ->
  (2 ^ (-1022) <= round_nearest (dx1 - dx0))%Q /\ (round_nearest (dx1 - dx0) <= 2 ^ 1022)%Q.
Proof.
  intros gap_lo gap_hi. split.
  - apply round_nearest_ge_pow; [lia|exact gap_lo].
  - apply round_nearest_le_pow. exact gap_hi.
Qed.

Lemma ramp_slope (dx0 dx1 : Q) :
  (2 ^ (-1022) <= dx1 - dx0)%Q -> (dx1 - dx0 <= 2 ^ 1022)%Q ->
  let D := round_nearest (dx1 - dx0) in
  let slope := round_nearest (1 / D) in
  (0 < D)%Q /\ (0 <= slope)%Q /\ (slope <= 2 ^ 1022)%Q /\ (slope * D <= 1 + 2 ^ (-53))%Q.
Proof.
  intros gap_lo gap_hi D slope.
  destruct (ramp_gap dx0 dx1 gap_lo gap_hi) as [Lo Up]. fold D in Lo, Up.
  destruct (inverse_bounds D Lo Up) as (HD & ILo & IUp).
  split; [exact HD|]. split; [|split].
  - apply round_nearest_nonneg. eapply Qle_trans; [|exact ILo].
    apply Qlt_le_weak, pow2_pos.
  - now apply round_nearest_le_pow.
  - apply (Qle_trans _ (1 / D * (1 + 2 ^ (-53)) * D)).
    + apply Qmult_le_compat_r; [|now apply Qlt_le_weak].
      now apply round_nearest_upper.
    + assert (E : (1 / D * (1 + 2 ^ (-53)) * D == 1 + 2 ^ (-53))%Q).
      { field. intros H. rewrite H in HD. discriminate. }
      rewrite E. apply Qle_refl.
Qed.

Lemma ramp_product (dx0 dx1 x_val : Q) :
  (2 ^ (-1022) <= dx1 - dx0)%Q -> (dx1 - dx0 <= 2 ^ 1022)%Q ->
  (dx0 <= x_val)%Q -> (x_val <= dx1)%Q ->
  let slope := round_nearest (1 / round_nearest (dx1 - dx0)) in
  (0 <= round_nearest (x_val - dx0))%Q /\
  (0 <= slope * round_nearest (x_val - dx0))%Q /\
  (slope * round_nearest (x_val - dx0) <= 1 + 2 ^ (-53))%Q.
Proof.
  intros gap_lo gap_hi H0 H1 slope.
  destruct (ramp_slope dx0 dx1 gap_lo gap_hi) as (HD & Hs0 & _ & Hs). fold slope in Hs0, Hs.
  assert (Hd0 : (0 <= round_nearest (x_val - dx0))%Q)
    by (apply round_nearest_nonneg; lra).
  assert (HdD : (round_nearest (x_val - dx0) <= round_nearest (dx1 - dx0))%Q)
    by (apply round_nearest_monotone; lra).
  split; [exact Hd0|]. split.
  - now apply Qmult_le_0_compat.
  - eapply Qle_trans; [|exact Hs].
    rewrite (Qmult_comm slope), (Qmult_comm slope).
    now apply Qmult_le_compat_r.
Qed.

Lemma line_value_bounds (dx0 dx1 x_val : Q) :
  (2 ^ (-1022) <= dx1 - dx0)%Q -> (dx1 - dx0 <= 2 ^ 1022)%Q ->
  (dx0 <= x_val)%Q -> (x_val <= dx1)%Q ->
  (0 <= line_value x_val dx0 dx1)%Q /\ (line_value x_val dx0 dx1 <= 1)%Q.
Proof.
  intros gap_lo gap_hi H0 H1.
  destruct (ramp_product dx0 dx1 x_val gap_lo gap_hi H0 H1) as (_ & P0 & P1).
  unfold line_value.
  set (p := (round_nearest (1 / round_nearest (dx1 - dx0)) * round_nearest (x_val - dx0))%Q)
    in *.
  assert (Hp0 : (0 <= round_nearest p)%Q) by now apply round_nearest_nonneg.
  assert (Hp1 : (round_nearest p <= 1)%Q).
  { change 1%Q with (round_nearest (1 + 2 ^ (-53))). now apply round_nearest_monotone. }
  split.
  - apply round_nearest_nonneg. lra.
  - change 1%Q with (2 ^ 0)%Q. apply round_nearest_le_pow.
    change (2 ^ 0)%Q with 1%Q. lra.
Qed.

Lemma line_value_monotone (dx0 dx1 x1 x2 : Q) :
  (2 ^ (-1022) <= dx1 - dx0)%Q -> (dx1 - dx0 <= 2 ^ 1022)%Q ->
  (dx0 <= x1)%Q -> (x1 <= x2)%Q -> (x2 <= dx1)%Q ->
  (line_value x1 dx0 dx1 <= line_value x2 dx0 dx1)%Q.
Proof.
  intros gap_lo gap_hi H0 H12 H1.
  destruct (ramp_slope dx0 dx1 gap_lo gap_hi) as (_ & Hs0 & _).
  unfold line_value.
  apply round_nearest_monotone. apply Qplus_le_l.
  apply round_nearest_monotone.
  rewrite !(Qmult_comm (round_nearest (1 / round_nearest (dx1 - dx0)))).
  apply Qmult_le_compat_r; [|exact Hs0].
  apply round_nearest_monotone. lra.
Qed.

(** Between the sample points [arr_interp] takes the line, and every
    operation on the way is finite. *)
Lemma arr_interp_between (dx0 dx1 x_val : Q) :
  (2 ^ (-1022) <= dx1 - dx0)%Q -> (dx1 - dx0 <= 2 ^ 1022)%Q ->
  (dx0 < x_val)%Q -> (x_val < dx1)%Q ->
  arr_interp (Finite x_val) (Finite dx0) (Finite dx1) (Finite 0) (Finite 1)
  = Finite (line_value x_val dx0 dx1).
Proof.
  intros gap_lo gap_hi H0 H1.
  destruct (ramp_gap dx0 dx1 gap_lo gap_hi) as [DLo DUp].
  destruct (ramp_slope dx0 dx1 gap_lo gap_hi) as (HD & Hs0 & Hs1 & _).
  destruct (ramp_product dx0 dx1 x_val gap_lo gap_hi) as (Hd0 & P0 & P1); [lra|lra|].
  set (D := round_nearest (dx1 - dx0)) in *.
  destruct (inverse_bounds D DLo DUp) as (_ & ILo & IUp).
  set (slope := round_nearest (1 / D)) in *.
  set (d := round_nearest (x_val - dx0)) in *.
  unfold arr_interp. cbn [isnan].
  assert (T1 : flt (Finite dx1) (Finite x_val) = false).
  { unfold flt. simpl. apply negb_false_iff, Qle_bool_iff. lra. }
  assert (T2 : flt (Finite x_val) (Finite dx0) = false).
  { unfold flt. simpl. apply negb_false_iff, Qle_bool_iff. lra. }
  assert (T3 : fge (Finite x_val) (Finite dx1) = false).
  { unfold fge. rewrite T1. unfold feq. simpl.
    destruct (Qeq_bool x_val dx1) eqn:E; [|reflexivity].
    apply Qeq_bool_iff in E. lra. }
  assert (T4 : feq (Finite dx0) (Finite x_val) = false).
  { unfold feq. simpl. destruct (Qeq_bool dx0 x_val) eqn:E; [|reflexivity].
    apply Qeq_bool_iff in E. lra. }
  rewrite T1, T2, T3, T4.
  assert (E1 : fsub (Finite 1) (Finite 0) = Finite 1) by (vm_compute; reflexivity).
  assert (E2 : fsub (Finite dx1) (Finite dx0) = Finite D).
  { apply fsub_finite. apply (within _ 1022); [lia| |exact gap_hi].
    eapply Qle_trans; [|exact gap_lo]. apply Qlt_le_weak, pow2_pos. }
  assert (E3 : fdiv (Finite 1) (Finite D) = Finite slope).
  { apply fdiv_finite.
    - intros H. rewrite H in HD. discriminate.
    - apply (within _ 1022); [lia| |exact IUp].
      eapply Qle_trans; [|exact ILo]. apply Qlt_le_weak, pow2_pos. }
  assert (E4 : fsub (Finite x_val) (Finite dx0) = Finite d).
  { apply fsub_finite. apply (within _ 1022); [lia|lra|lra]. }
  assert (E5 : fmul (Finite slope) (Finite d) = Finite (round_nearest (slope * d))).
  { apply fmul_finite. apply (within _ 1); [lia|exact P0|].
    eapply Qle_trans; [exact P1|]. vm_compute. discriminate. }
  assert (Hp0 : (0 <= round_nearest (slope * d))%Q) by now apply round_nearest_nonneg.
  assert (Hp1 : (round_nearest (slope * d) <= 1)%Q).
  { change 1%Q with (round_nearest (1 + 2 ^ (-53))). now apply round_nearest_monotone. }
  assert (E6 : fadd (Finite (round_nearest (slope * d))) (Finite 0)
               = Finite (line_value x_val dx0 dx1)).
  { unfold line_value. fold D. fold slope. fold d. apply fadd_finite.
    apply (within _ 0); [lia|lra|]. change (2 ^ 0)%Q with 1%Q. lra. }
  rewrite E1, E2, E3, E4, E5, E6. reflexivity.
Qed.

(** From the first sample point to the last, [arr_interp] gives the
    position on the ramp. *)
Lemma arr_interp_ramp (dx0 dx1 x_val : Q) :
  (2 ^ (-1022) <= dx1 - dx0)%Q -> (dx1 - dx0 <= 2 ^ 1022)%Q ->
  (dx0 <= x_val)%Q -> (x_val <= dx1)%Q ->
  arr_interp (Finite x_val) (Finite dx0) (Finite dx1) (Finite 0) (Finite 1)
  = Finite (ramp_position x_val dx0 dx1).
Proof.
  intros gap_lo gap_hi H0 H1. unfold ramp_position.
  assert (Hgap : (dx0 < dx1)%Q).
  { pose proof (pow2_pos (-1022)). lra. }
  destruct (Qle_bool dx1 x_val) eqn:Etop.
  - apply Qle_bool_iff in Etop.
    unfold arr_interp. cbn [isnan].
    assert (T1 : flt (Finite dx1) (Finite x_val) = false).
    { unfold flt. simpl. apply negb_false_iff, Qle_bool_iff. lra. }
    assert (T2 : flt (Finite x_val) (Finite dx0) = false).
    { unfold flt. simpl. apply negb_false_iff, Qle_bool_iff. lra. }
    assert (T3 : fge (Finite x_val) (Finite dx1) = true).
    { unfold fge. rewrite T1. unfold feq. simpl. apply Qeq_bool_iff. lra. }
    now rewrite T1, T2, T3.
  - assert (Htop : (x_val < dx1)%Q).
    { apply Qnot_le_lt. intros H. apply Qle_bool_iff in H. congruence. }
    destruct (Qle_bool x_val dx0) eqn:Ebot.
    + apply Qle_bool_iff in Ebot.
      unfold arr_interp. cbn [isnan].
      assert (T1 : flt (Finite dx1) (Finite x_val) = false).
      { unfold flt. simpl. apply negb_false_iff, Qle_bool_iff. lra. }
      assert (T2 : flt (Finite x_val) (Finite dx0) = false).
      { unfold flt. simpl. apply negb_false_iff, Qle_bool_iff. lra. }
      assert (T3 : fge (Finite x_val) (Finite dx1) = false).
      { unfold fge. rewrite T1. unfold feq. simpl.
        destruct (Qeq_bool x_val dx1) eqn:E; [|reflexivity].
        apply Qeq_bool_iff in E. lra. }
      assert (T4 : feq (Finite dx0) (Finite x_val) = true).
      { unfold feq. simpl. apply Qeq_bool_iff. lra. }
      now rewrite T1, T2, T3, T4.
    + assert (Hbot : (dx0 < x_val)%Q).
      { apply Qnot_le_lt. intros H. apply Qle_bool_iff in H. congruence. }
      now apply arr_interp_between.
Qed.

Lemma ramp_position_bounds (dx0 dx1 x_val : Q) :
  (2 ^ (-1022) <= dx1 - dx0)%Q -> (dx1 - dx0 <= 2 ^ 1022)%Q ->
  (dx0 <= x_val)%Q -> (x_val <= dx1)%Q ->
  (0 <= ramp_position x_val dx0 dx1)%Q /\ (ramp_position x_val dx0 dx1 <= 1)%Q.
Proof.
  intros gap_lo gap_hi H0 H1. unfold ramp_position.
  destruct (Qle_bool dx1 x_val); [split; lra|].
  destruct (Qle_bool x_val dx0); [split; lra|].
  now apply line_value_bounds.
Qed.

Lemma ramp_position_monotone (dx0 dx1 x1 x2 : Q) :
  (2 ^ (-1022) <= dx1 - dx0)%Q -> (dx1 - dx0 <= 2 ^ 1022)%Q ->
  (dx0 <= x1)%Q -> (x1 <= x2)%Q -> (x2 <= dx1)%Q ->
  (ramp_position x1 dx0 dx1 <= ramp_position x2 dx0 dx1)%Q.
Proof.
  intros gap_lo gap_hi H0 H12 H1.
  destruct (ramp_position_bounds dx0 dx1 x1 gap_lo gap_hi) as [L1 U1]; [lra|lra|].
  destruct (ramp_position_bounds dx0 dx1 x2 gap_lo gap_hi) as [L2 U2]; [lra|lra|].
  unfold ramp_position in *.
  destruct (Qle_bool dx1 x2) eqn:E2.
  - destruct (Qle_bool dx1 x1); [lra|]. destruct (Qle_bool x1 dx0); [lra|exact U1].
  - assert (H2 : (x2 < dx1)%Q).
    { apply Qnot_le_lt. intros H. apply Qle_bool_iff in H. congruence. }
    destruct (Qle_bool dx1 x1) eqn:E1; [apply Qle_bool_iff in E1; lra|].
    destruct (Qle_bool x1 dx0) eqn:B1.
    + destruct (Qle_bool x2 dx0); [lra|exact L2].
    + assert (H3 : (dx0 < x1)%Q).
      { apply Qnot_le_lt. intros H. apply Qle_bool_iff in H. congruence. }
      destruct (Qle_bool x2 dx0) eqn:B2; [apply Qle_bool_iff in B2; lra|].
      apply line_value_monotone; lra.
Qed.

(** ** The choropleth *)

(** The choropleth loop raises nothing and appends the filled rings of each
    row, in row order, at the row's position on the ramp. *)
Lemma draw_numeric_traces (file_info_color : string) (joined : list (feature * Q)) (s : state) :
  draw_numeric file_info_color joined s =
  (inr tt,
   extend s
     (flat_map
        (fun row =>
           filled_traces (feat_geometry (fst row))
             (sample_colorscale "rgba(255,255,255,0)" file_info_color
                (normalized_val (snd row) (series_min (map snd joined))
                   (series_max (map snd joined))))
             (Css "rgba(0,0,0,0)"))
        joined) []).
Proof.
  unfold draw_numeric. apply for_each_appends. intros row s0 Hin.
  apply add_filled_extend.
Qed.

Lemma single_row_extremes (v : Q) : (series_min [v] == series_max [v])%Q.
Proof. simpl. reflexivity. Qed.

(** C5. A numeric layer whose joined rows have equal minimum and maximum (a
    single joined row is such a layer): every row normalises to 0.5 without
    any quotient being taken, the loop raises nothing, and every ring of
    every joined feature is filled with the ramp colour at 0.5. *)
Theorem C5_equal_extremes_mid_intensity
  (file_info_color : string) (joined : list (feature * Q)) (s : state) :
  (List.length joined = 1%nat \/
   (series_min (map snd joined) == series_max (map snd joined))%Q) ->
  (forall row, In row joined ->
     normalized_val (snd row) (series_min (map snd joined)) (series_max (map snd joined))
     = Finite (1 # 2)) /\
  draw_numeric file_info_color joined s =
  (inr tt,
   extend s
     (flat_map
        (fun row =>
           filled_traces (feat_geometry (fst row))
             (sample_colorscale "rgba(255,255,255,0)" file_info_color (Finite (1 # 2)))
             (Css "rgba(0,0,0,0)"))
        joined) []).
Proof.
  intros H.
  assert (Heq : (series_min (map snd joined) == series_max (map snd joined))%Q).
  { destruct H as [H|H]; [|exact H].
    destruct joined as [|r [|r' rest]]; try discriminate. apply single_row_extremes. }
  assert (Hmid : forall v, normalized_val v (series_min (map snd joined))
                             (series_max (map snd joined)) = Finite (1 # 2)).
  { intros v. unfold normalized_val.
    apply Qeq_bool_iff in Heq. now rewrite Heq. }
  split.
  - intros row _. apply Hmid.
  - rewrite draw_numeric_traces.
    f_equal. f_equal. apply flat_map_ext. intros row. now rewrite Hmid.
Qed.

Lemma C5_equal_extremes_mid_intensity_witness :
  draw_numeric "#FF4500" [(Kathmandu, 7%Q); (Pokhara, 7%Q)] initial =
  (inr tt,
   extend initial
     (filled_traces (square 0 0)
        (sample_colorscale "rgba(255,255,255,0)" "#FF4500" (Finite (1 # 2)))
        (Css "rgba(0,0,0,0)") ++
      filled_traces (square 2 0)
        (sample_colorscale "rgba(255,255,255,0)" "#FF4500" (Finite (1 # 2)))
        (Css "rgba(0,0,0,0)"))%list []).
Proof.
  apply (proj2 (C5_equal_extremes_mid_intensity "#FF4500"
                  [(Kathmandu, 7%Q); (Pokhara, 7%Q)] initial
                  (or_intror (Qeq_refl 7)))).
Defined.

(** C6. The layer with the int64 values 2^53 and 2^53 + 1 has distinct
    minimum and maximum, so line 228 interpolates; [numpy.interp] converts
    both sample points to the float64 2^53, and the row holding the minimum
    normalises to 1, not to 0: both districts are filled at the top of the
    ramp. On the values 10 and 30 the minimum is at 0 and the maximum at 1. *)
Theorem C6_minimum_row_at_full_intensity :
  series_min [9007199254740992; 9007199254740993]%Q = 9007199254740992%Q /\
  series_max [9007199254740992; 9007199254740993]%Q = 9007199254740993%Q /\
  Qeq_bool 9007199254740992 9007199254740993 = false /\
  float64 9007199254740993 = Finite 9007199254740992 /\
  normalized_val 9007199254740992 9007199254740992 9007199254740993 = Finite 1 /\
  draw_layer (demo_lib false) two_districts (snd (layer "big.csv" "Val" large_frame)) initial
  = (inr tt,
     extend initial
       (filled_traces (square 0 0)
          (sample_colorscale "rgba(255,255,255,0)" "#FF4500" (Finite 1))
          (Css "rgba(0,0,0,0)") ++
        filled_traces (square 2 0)
          (sample_colorscale "rgba(255,255,255,0)" "#FF4500" (Finite 1))
          (Css "rgba(0,0,0,0)"))%list []) /\
  draw_layer (demo_lib false) two_districts (snd (layer "good.csv" "Val" spread_frame)) initial
  = (inr tt,
     extend initial
       (filled_traces (square 0 0)
          (sample_colorscale "rgba(255,255,255,0)" "#FF4500" (Finite 0))
          (Css "rgba(0,0,0,0)") ++
        filled_traces (square 2 0)
          (sample_colorscale "rgba(255,255,255,0)" "#FF4500" (Finite 1))
          (Css "rgba(0,0,0,0)"))%list []).
Proof.
  split; [|split; [|split; [|split; [|split; [|split]]]]]; vm_compute; reflexivity.
Qed.

(** A value of magnitude at most [2 ^ 1021] converts to a finite float64 of
    that magnitude at most. *)
Lemma float64_within (q : Q) :
  (Qabs q <= 2 ^ 1021)%Q ->
  float64 q = Finite (round_nearest q) /\
  (- 2 ^ 1021 <= round_nearest q)%Q /\ (round_nearest q <= 2 ^ 1021)%Q.
Proof.
  intros H. split.
  - apply float64_finite. eapply Qle_trans; [exact H|]. apply pow2_le. lia.
  - apply Qabs_Qle_condition in H. destruct H as [Lo Up]. split.
    + now apply round_nearest_ge_opp_pow.
    + now apply round_nearest_le_pow.
Qed.

(** Line 228 in float64: with joined values of magnitude at most [2 ^ 1021]
    whose extremes convert to float64 values at least [2 ^ -1022] apart,
    a value between the extremes is put at its position on the ramp. *)
Lemma normalized_val_on_ramp (value min_val max_val : Q) :
  (Qabs value <= 2 ^ 1021)%Q -> (Qabs min_val <= 2 ^ 1021)%Q ->
  (Qabs max_val <= 2 ^ 1021)%Q ->
  (min_val <= value)%Q -> (value <= max_val)%Q ->
  (2 ^ (-1022) <= round_nearest max_val - round_nearest min_val)%Q ->
  normalized_val value min_val max_val
  = Finite (ramp_position (round_nearest value) (round_nearest min_val)
              (round_nearest max_val)) /\
  (round_nearest min_val <= round_nearest value)%Q /\
  (round_nearest value <= round_nearest max_val)%Q /\
  (round_nearest max_val - round_nearest min_val <= 2 ^ 1022)%Q.
Proof.
  intros Hv Hmin Hmax Hlo Hhi Hgap.
  destruct (float64_within value Hv) as (Ev & _ & _).
  destruct (float64_within min_val Hmin) as (Emin & Lmin & _).
  destruct (float64_within max_val Hmax) as (Emax & _ & Umax).
  assert (H0 : (round_nearest min_val <= round_nearest value)%Q)
    by now apply round_nearest_monotone.
  assert (H1 : (round_nearest value <= round_nearest max_val)%Q)
    by now apply round_nearest_monotone.
  assert (Hwide : (round_nearest max_val - round_nearest min_val <= 2 ^ 1022)%Q).
  { rewrite (pow2_plus 1 1021) . change (2 ^ 1)%Q with 2%Q.
    generalize dependent (2 ^ 1021)%Q. intros P; intros. lra. }
  split; [|split; [exact H0|split; [exact H1|exact Hwide]]].
  unfold normalized_val.
  assert (Hne : Qeq_bool min_val max_val = false).
  { apply Qeq_bool_false. intros E.
    rewrite (round_nearest_proper min_val max_val E) in Hgap.
    pose proof (pow2_pos (-1022)). lra. }
  rewrite Hne. simpl negb. cbv iota. unfold interp.
  rewrite Ev, Emin, Emax.
  change (float64 0) with (Finite 0). change (float64 1) with (Finite 1).
  now apply arr_interp_ramp.
Qed.

(** X12. The positions of a choropleth in float64. For joined values of
    magnitude at most [2 ^ 1021] whose minimum and maximum convert to
    float64 values at least [2 ^ -1022] apart: a row at the minimum is put
    at 0 and a row at the maximum at 1; of two rows the one with the higher
    value has the higher or equal position, both finite and within [0, 1];
    and the loop fills every ring of every row at that position. *)
Theorem choropleth_positions
  (file_info_color : string) (joined : list (feature * Q)) (s : state) :
  let min_val := series_min (map snd joined) in
  let max_val := series_max (map snd joined) in
  (forall row, In row joined -> (Qabs (snd row) <= 2 ^ 1021)%Q) ->
  (2 ^ (-1022) <= round_nearest max_val - round_nearest min_val)%Q ->
  (forall row, In row joined -> (snd row == min_val)%Q ->
     normalized_val (snd row) min_val max_val = Finite 0) /\
  (forall row, In row joined -> (snd row == max_val)%Q ->
     normalized_val (snd row) min_val max_val = Finite 1) /\
  (forall row1 row2, In row1 joined -> In row2 joined -> (snd row1 <= snd row2)%Q ->
     exists t1 t2,
       normalized_val (snd row1) min_val max_val = Finite t1 /\
       normalized_val (snd row2) min_val max_val = Finite t2 /\
       (0 <= t1)%Q /\ (t1 <= t2)%Q /\ (t2 <= 1)%Q) /\
  draw_numeric file_info_color joined s =
  (inr tt,
   extend s
     (flat_map
        (fun row =>
           filled_traces (feat_geometry (fst row))
             (sample_colorscale "rgba(255,255,255,0)" file_info_color
                (normalized_val (snd row) min_val max_val))
             (Css "rgba(0,0,0,0)"))
        joined) []).
Proof.
  intros min_val max_val Hsize Hgap.
  assert (Hnil : map snd joined <> []).
  { destruct joined; [|discriminate]. exfalso.
    unfold min_val, max_val, series_min, series_max in Hgap. cbn [map] in Hgap.
    change (round_nearest 0) with 0%Q in Hgap.
    pose proof (pow2_pos (-1022)). lra. }
  destruct (series_min_spec _ Hnil) as [Hmin_in Hmin_le].
  destruct (series_max_spec _ Hnil) as [Hmax_in Hmax_le].
  fold min_val in Hmin_in, Hmin_le. fold max_val in Hmax_in, Hmax_le.
  assert (Hmin : (Qabs min_val <= 2 ^ 1021)%Q).
  { apply in_map_iff in Hmin_in. destruct Hmin_in as (row & <- & Hin). now apply Hsize. }
  assert (Hmax : (Qabs max_val <= 2 ^ 1021)%Q).
  { apply in_map_iff in Hmax_in. destruct Hmax_in as (row & <- & Hin). now apply Hsize. }
  assert (Hrow : forall row, In row joined ->
            normalized_val (snd row) min_val max_val
            = Finite (ramp_position (round_nearest (snd row)) (round_nearest min_val)
                        (round_nearest max_val)) /\
            (round_nearest min_val <= round_nearest (snd row))%Q /\
            (round_nearest (snd row) <= round_nearest max_val)%Q /\
            (round_nearest max_val - round_nearest min_val <= 2 ^ 1022)%Q).
  { intros row Hin. apply normalized_val_on_ramp; try assumption.
    - now apply Hsize.
    - apply Hmin_le. now apply in_map.
    - apply Hmax_le. now apply in_map. }
  assert (Hlt : (round_nearest min_val < round_nearest max_val)%Q).
  { pose proof (pow2_pos (-1022)). lra. }
  split; [|split; [|split]].
  - intros row Hin Hv. destruct (Hrow row Hin) as (-> & _). f_equal.
    rewrite (round_nearest_proper _ _ Hv). unfold ramp_position.
    assert (E1 : Qle_bool (round_nearest max_val) (round_nearest min_val) = false)
      by now apply Qle_bool_false.
    assert (E2 : Qle_bool (round_nearest min_val) (round_nearest min_val) = true)
      by (apply Qle_bool_iff, Qle_refl).
    now rewrite E1, E2.
  - intros row Hin Hv. destruct (Hrow row Hin) as (-> & _). f_equal.
    rewrite (round_nearest_proper _ _ Hv). unfold ramp_position.
    assert (E1 : Qle_bool (round_nearest max_val) (round_nearest max_val) = true)
      by (apply Qle_bool_iff, Qle_refl).
    now rewrite E1.
  - intros row1 row2 Hin1 Hin2 Hle.
    destruct (Hrow row1 Hin1) as (E1 & L1 & U1 & Hwide).
    destruct (Hrow row2 Hin2) as (E2 & L2 & U2 & _).
    eexists. eexists. split; [exact E1|]. split; [exact E2|].
    destruct (ramp_position_bounds (round_nearest min_val) (round_nearest max_val)
                (round_nearest (snd row1)) Hgap Hwide L1 U1) as [B0 _].
    destruct (ramp_position_bounds (round_nearest min_val) (round_nearest max_val)
                (round_nearest (snd row2)) Hgap Hwide L2 U2) as [_ B1].
    split; [exact B0|]. split; [|exact B1].
    apply ramp_position_monotone; try assumption.
    now apply round_nearest_monotone.
  - apply draw_numeric_traces.
Qed.

Lemma choropleth_positions_witness :
  normalized_val 10 10 30 = Finite 0 /\ normalized_val 30 10 30 = Finite 1.
Proof.
  assert (Hsize : forall row, In row [(Kathmandu, 10%Q); (Pokhara, 30%Q)] ->
                    (Qabs (snd row) <= 2 ^ 1021)%Q).
  { intros row [<-|[<-|[]]]; vm_compute; discriminate. }
  assert (Hgap : (2 ^ (-1022)
                  <= round_nearest (series_max (map snd [(Kathmandu, 10%Q); (Pokhara, 30%Q)]))
                     - round_nearest
                         (series_min (map snd [(Kathmandu, 10%Q); (Pokhara, 30%Q)])))%Q)
    by (vm_compute; discriminate).
  pose proof (choropleth_positions "#FF4500" [(Kathmandu, 10%Q); (Pokhara, 30%Q)] initial
                Hsize Hgap) as (H0 & H1 & _).
  split.
  - exact (H0 (Kathmandu, 10%Q) (or_introl eq_refl) (Qeq_refl 10)).
  - exact (H1 (Pokhara, 30%Q) (or_intror (or_introl eq_refl)) (Qeq_refl 30)).
Defined.

(** ** Frames and the inner join *)

Lemma mapR_app {A B : Type} (f : A -> R B) (l1 l2 : list A) :
  mapR f (l1 ++ l2) =
  (let? b1 := mapR f l1 in let? b2 := mapR f l2 in inr (b1 ++ b2)%list).
Proof.
  induction l1 as [|a l1 IH]; simpl.
  - destruct (mapR f l2); reflexivity.
  - destruct (f a) as [e|b]; simpl; [reflexivity|].
    rewrite IH. destruct (mapR f l1) as [e|b1]; simpl; [reflexivity|].
    destruct (mapR f l2); reflexivity.
Qed.

Lemma mapR_length {A B : Type} (f : A -> R B) (l : list A) (bs : list B) :
  mapR f l = inr bs -> List.length bs = List.length l.
Proof.
  revert bs. induction l as [|a l IH]; simpl; intros bs H.
  - injection H as <-. reflexivity.
  - destruct (f a) as [e|b]; simpl in H; [discriminate|].
    destruct (mapR f l) as [e|bs']; simpl in H; [discriminate|].
    injection H as <-. simpl. f_equal. now apply IH.
Qed.


Lemma mapR_total {A B : Type} (f : A -> R B) (l : list A) :
  (forall a, In a l -> exists b, f a = inr b) -> exists bs, mapR f l = inr bs.
Proof.
  induction l as [|a l IH]; intros H; simpl.
  - now exists [].
  - destruct (H a (or_introl eq_refl)) as [b ->]. simpl.
    destruct IH as [bs ->]; [intros; apply H; now right|].
    now exists (b :: bs).
Qed.

Lemma combine_append {A B : Type} (l1 l2 : list A) (m1 m2 : list B) :
  List.length l1 = List.length m1 ->
  combine (l1 ++ l2) (m1 ++ m2) = (combine l1 m1 ++ combine l2 m2)%list.
Proof.
  revert m1. induction l1 as [|a l1 IH]; intros [|b m1] H; simpl in *; try discriminate.
  - reflexivity.
  - f_equal. apply IH. now injection H.
Qed.

Lemma position_bound (col : string) (cols : list string) (k : nat) :
  position col cols = Some k -> (k < List.length cols)%nat.
Proof.
  revert k. induction cols as [|c cols IH]; simpl; intros k H; [discriminate|].
  destruct (String.eqb c col).
  - injection H as <-. lia.
  - destruct (position col cols) as [k'|]; simpl in H; [|discriminate].
    injection H as <-. specialize (IH k' eq_refl). lia.
Qed.

Lemma position_has_column (col : string) (df : DataFrame) (k : nat) :
  position col (columns df) = Some k -> has_column col df = true.
Proof.
  unfold has_column. induction (columns df) as [|c cols IH] in k |- *; simpl; [discriminate|].
  rewrite (String.eqb_sym col c). destruct (String.eqb c col); [reflexivity|].
  destruct (position col cols) as [k'|]; simpl; [|discriminate].
  intros _. now apply (IH k').
Qed.


(** ** Labels of the merged frame *)

Lemma suffixed_disjoint (suffix : string) (own other : list string) :
  (forall c, In c own -> ~ In c other) -> suffixed suffix own other = own.
Proof.
  intros H. unfold suffixed. induction own as [|c own IH]; simpl; [reflexivity|].
  assert (E : existsb (String.eqb c) other = false).
  { destruct (existsb (String.eqb c) other) eqn:E; [|reflexivity].
    apply existsb_exists in E. destruct E as (o & Ho & Eo).
    apply String.eqb_eq in Eo. subst o. exfalso. apply (H c); [now left|exact Ho]. }
  rewrite E. f_equal. apply IH. intros c' Hc'. apply H. now right.
Qed.

Lemma introduced_duplicates_same (seen labels : list string) :
  map fst
    (filter (fun p => fst (snd p) && negb (snd (snd p)))
       (combine labels (combine (duplicated seen labels) (duplicated seen labels)))) = [].
Proof.
  revert seen. induction labels as [|c labels IH]; intros seen; simpl; [reflexivity|].
  rewrite andb_negb_r. apply IH.
Qed.

(** Frames without a common label are merged without renaming. *)
Lemma merged_labels_disjoint (districts_gdf : GeoDataFrame) (user_df : DataFrame) :
  disjoint_labels districts_gdf user_df ->
  left_labels districts_gdf user_df = gdf_columns districts_gdf /\
  right_labels districts_gdf user_df = columns user_df /\
  (introduced_duplicates (gdf_columns districts_gdf) (left_labels districts_gdf user_df) ++
   introduced_duplicates (columns user_df) (right_labels districts_gdf user_df))%list = [].
Proof.
  intros H.
  assert (HL : left_labels districts_gdf user_df = gdf_columns districts_gdf).
  { apply suffixed_disjoint. intros c Hc Hu. exact (H c Hu Hc). }
  assert (HR : right_labels districts_gdf user_df = columns user_df)
    by (apply suffixed_disjoint; exact H).
  split; [exact HL|]. split; [exact HR|].
  rewrite HL, HR. unfold introduced_duplicates.
  now rewrite !introduced_duplicates_same.
Qed.

(** ** The inner join *)


(** What a join that returns has checked, and what it returns. *)
Lemma merge_rows (districts_gdf : GeoDataFrame) (user_df : DataFrame) (col : string)
  (joined : list (feature * list cell)) :
  merge districts_gdf user_df col = inr joined ->
  has_name_column districts_gdf = true /\
  exists keys,
    column user_df col = inr keys /\
    joined = flat_map
               (fun d =>
                  map (fun kr => (d, snd (snd kr)))
                    (filter (fun kr => cell_is (feat_name d) (fst kr))
                       (combine keys (rows user_df))))
               (features districts_gdf).
Proof.
  unfold merge. destruct (column user_df col) as [e|keys]; [discriminate|]. cbn [bindR].
  destruct (has_name_column districts_gdf); [|discriminate]. cbn [negb].
  destruct (negb (empty (features districts_gdf)) && numeric_dtype keys); [discriminate|].
  destruct (_ ++ _)%list; [|discriminate].
  intros H. injection H as <-. split; [reflexivity|]. now exists keys.
Qed.

(** A join on keys that are not numbers, between frames that share no label,
    with the name column present, returns its rows. *)
Lemma merge_succeeds (districts_gdf : GeoDataFrame) (user_df : DataFrame) (col : string)
  (keys : list cell) :
  column user_df col = inr keys ->
  has_name_column districts_gdf = true ->
  disjoint_labels districts_gdf user_df ->
  negb (empty (features districts_gdf)) && numeric_dtype keys = false ->
  merge districts_gdf user_df col
  = inr (flat_map
           (fun d =>
              map (fun kr => (d, snd (snd kr)))
                (filter (fun kr => cell_is (feat_name d) (fst kr))
                   (combine keys (rows user_df))))
           (features districts_gdf)).
Proof.
  intros Hcol Hname Hdis Hdtype. unfold merge. rewrite Hcol. cbn [bindR].
  rewrite Hname. cbn [negb]. rewrite Hdtype.
  destruct (merged_labels_disjoint _ _ Hdis) as (_ & _ & ->). reflexivity.
Qed.


Lemma numeric_dtype_drops_None (k1 k2 : list cell) :
  numeric_dtype (k1 ++ CNone :: k2) = numeric_dtype (k1 ++ k2) /\
  dtype_name (k1 ++ CNone :: k2) = dtype_name (k1 ++ k2).
Proof.
  unfold numeric_dtype, dtype_name.
  rewrite !existsb_app, !forallb_app. simpl. split; reflexivity.
Qed.

(** A row whose key is [None] joins with nothing: the join is the one of the
    frame without that row. *)
Lemma merge_drops_None (districts_gdf : GeoDataFrame) (cols : list string)
  (before after : list (Z * list cell)) (i : Z) (cells : list cell) (col : string) :
  row_get cols cells col = inr CNone ->
  merge districts_gdf (mkFrame cols (before ++ (i, cells) :: after)) col =
  merge districts_gdf (mkFrame cols (before ++ after)) col.
Proof.
  intros Hget. unfold merge, column, has_column, left_labels, right_labels. simpl.
  destruct (existsb (String.eqb col) cols); [|reflexivity].
  rewrite !mapR_app. simpl. rewrite Hget. simpl.
  destruct (mapR (fun r => row_get cols (snd r) col) before) as [e|k1] eqn:E1; simpl;
    [reflexivity|].
  destruct (mapR (fun r => row_get cols (snd r) col) after) as [e|k2] eqn:E2; simpl;
    [reflexivity|].
  destruct (numeric_dtype_drops_None k1 k2) as [-> ->].
  destruct (has_name_column districts_gdf); [|reflexivity]. cbn [negb].
  destruct (negb (empty (features districts_gdf)) && numeric_dtype (k1 ++ k2));
    [reflexivity|].
  destruct (_ ++ _)%list; [|reflexivity].
  f_equal. apply flat_map_ext. intros d. f_equal.
  apply mapR_length in E1.
  rewrite !combine_append by assumption.
  rewrite !filter_app. simpl. reflexivity.
Qed.

(** ** The matcher *)

Lemma extractOne_Some (scorer : string -> string -> Z) (query : string)
  (choices : list string) (c : string) (sc : Z) :
  extractOne scorer query choices = Some (c, sc) ->
  In c choices /\ sc = scorer query c /\ (forall d, In d choices -> scorer query d <= sc).
Proof.
  revert c sc. induction choices as [|c0 cs IH]; simpl; intros c sc H; [discriminate|].
  destruct (extractOne scorer query cs) as [[c' s']|] eqn:E.
  - destruct (IH c' s' eq_refl) as (Hin & Hs & Hbest).
    destruct (scorer query c0 <? s') eqn:Hlt.
    + injection H as <- <-. apply Z.ltb_lt in Hlt.
      repeat split; auto. intros d [<-|Hd]; [lia|auto].
    + injection H as <- <-. apply Z.ltb_ge in Hlt.
      repeat split; auto. intros d [<-|Hd]; [lia|]. specialize (Hbest d Hd). lia.
  - injection H as <- <-. repeat split; auto.
    intros d [<-|Hd]; [lia|]. destruct cs; [contradiction|]. simpl in E.
    destruct (extractOne scorer query cs) as [[? ?]|]; [|discriminate].
    destruct (_ <? _); discriminate.
Qed.

Lemma extractOne_None (scorer : string -> string -> Z) (query : string)
  (choices : list string) :
  extractOne scorer query choices = None <-> choices = [].
Proof.
  split.
  - destruct choices as [|c cs]; [reflexivity|]. simpl.
    destruct (extractOne scorer query cs) as [[? ?]|]; [|discriminate].
    destruct (_ <? _); discriminate.
  - intros ->. reflexivity.
Qed.

(** A choice that scores strictly above every other choice is the one
    returned, with its own score. *)
Lemma extractOne_strict_best (scorer : string -> string -> Z) (query best : string)
  (choices : list string) :
  In best choices ->
  (forall d, In d choices -> d <> best -> scorer query d < scorer query best) ->
  extractOne scorer query choices = Some (best, scorer query best).
Proof.
  induction choices as [|c cs IH]; intros Hin Hstrict; [contradiction|]. simpl.
  destruct (string_dec c best) as [->|Hne].
  - destruct (extractOne scorer query cs) as [[c' s']|] eqn:E; [|reflexivity].
    destruct (extractOne_Some _ _ _ _ _ E) as (Hc' & -> & _).
    destruct (string_dec c' best) as [->|Hne'].
    + now rewrite Z.ltb_irrefl.
    + assert (H : scorer query c' < scorer query best)
        by (apply Hstrict; [now right|assumption]).
      apply Z.lt_asymm, Z.ltb_nlt in H. now rewrite H.
  - destruct Hin as [Hin|Hin]; [contradiction|].
    rewrite IH; [|assumption|intros; apply Hstrict; [now right|assumption]].
    assert (H : scorer query c < scorer query best)
      by (apply Hstrict; [now left|assumption]).
    apply Z.ltb_lt in H. now rewrite H.
Qed.

(** ** Writing and reading back [matched_location] *)

Lemma mapR_map {A B C : Type} (f : B -> R C) (g : A -> B) (l : list A) :
  mapR f (map g l) = mapR (fun a => f (g a)) l.
Proof.
  induction l as [|a l IH]; simpl; [reflexivity|]. now rewrite IH.
Qed.

Lemma mapR_combine_values {A : Type} (h : A * cell -> R cell) (l : list A) (values : list cell) :
  List.length values = List.length l ->
  (forall a v, In a l -> h (a, v) = inr v) ->
  mapR h (combine l values) = inr values.
Proof.
  revert values. induction l as [|a l IH]; intros [|v values] Hlen Hh; simpl in *;
    try discriminate; [reflexivity|].
  rewrite Hh by now left. simpl.
  rewrite IH; [reflexivity|now injection Hlen|intros; apply Hh; now right].
Qed.

Lemma position_appended (col : string) (cols : list string) :
  position col cols = None -> position col (cols ++ [col]) = Some (List.length cols).
Proof.
  induction cols as [|c cols IH]; simpl; intros H.
  - now rewrite String.eqb_refl.
  - destruct (String.eqb c col); [discriminate|].
    destruct (position col cols); [discriminate|]. now rewrite IH.
Qed.

Lemma nth_error_set_nth (k : nat) (c : cell) (cells : list cell) :
  (k < List.length cells)%nat -> nth_error (set_nth k c cells) k = Some c.
Proof.
  revert cells. induction k as [|k IH]; intros [|c0 cells] H; simpl in *; try lia.
  - reflexivity.
  - apply IH. lia.
Qed.

(** On a well-formed frame, a column written with one value per row reads
    back as the values written, and the frame keeps its number of rows. *)
Lemma column_set_column (df : DataFrame) (col : string) (values : list cell) :
  well_formed df -> List.length values = List.length (rows df) ->
  column (set_column df col values) col = inr values.
Proof.
  intros Hwf Hlen. unfold set_column.
  destruct (position col (columns df)) as [k|] eqn:Hpos.
  - unfold column. rewrite (position_has_column col (mkFrame _ _) k) by exact Hpos.
    simpl. rewrite mapR_map. apply mapR_combine_values; [exact Hlen|].
    intros r v Hr. simpl. unfold row_get. rewrite Hpos.
    rewrite nth_error_set_nth; [reflexivity|].
    rewrite (Hwf r Hr). now apply position_bound in Hpos.
  - unfold column.
    rewrite (position_has_column col (mkFrame _ _) (List.length (columns df)))
      by (simpl; now apply position_appended).
    simpl. rewrite mapR_map. apply mapR_combine_values; [exact Hlen|].
    intros r v Hr. simpl. unfold row_get. rewrite (position_appended _ _ Hpos).
    rewrite nth_error_app2 by (rewrite (Hwf r Hr); lia).
    rewrite (Hwf r Hr), Nat.sub_diag. reflexivity.
Qed.






Lemma rows_set_column (df : DataFrame) (col : string) (values : list cell) :
  rows (set_column df col values)
  = map (fun rv => (fst (fst rv), with_cell (columns df) col (snd (fst rv)) (snd rv)))
      (combine (rows df) values).
Proof.
  unfold set_column, with_cell. now destruct (position col (columns df)).
Qed.

Lemma mapM_results {A B : Type} (f : A -> M B) (l : list A) (bs : list B) (s s' : state) :
  mapM f l s = (inr bs, s') ->
  Forall2 (fun a b => exists s0 s1, f a s0 = (inr b, s1)) l bs.
Proof.
  revert bs s s'. induction l as [|a l IH]; intros bs s s' H; simpl in H.
  - unfold ret in H. injection H as <- <-. constructor.
  - unfold bind in H. destruct (f a s) as [[e|b] s1] eqn:E1; [discriminate|].
    destruct (mapM f l s1) as [[e|bs'] s2] eqn:E2; [discriminate|].
    unfold ret in H. injection H as <- <-. constructor; [now exists s, s1|].
    now apply (IH _ _ _ E2).
Qed.

Lemma combine_map_combine {A B C : Type} (g : A * B -> C) (items : list A) (values : list B)
  (v : B) (x : C) :
  In (v, x) (combine values (map g (combine items values))) ->
  exists a, In (a, v) (combine items values) /\ x = g (a, v).
Proof.
  revert values. induction items as [|a items IH]; intros [|b values] H; simpl in H;
    try contradiction.
  destruct H as [H|H].
  - injection H as <- <-. exists a. split; [now left|reflexivity].
  - destruct (IH values H) as (a' & Hin & ->). exists a'. split; [now right|reflexivity].
Qed.

Lemma aligned_results {A B C : Type} (h : A -> R B) (P : B -> C -> Prop)
  (items : list A) (keys : list B) (values : list C) (a : A) (v : C) :
  mapR h items = inr keys -> Forall2 P keys values -> In (a, v) (combine items values) ->
  exists key, h a = inr key /\ P key v.
Proof.
  revert keys values. induction items as [|a0 items IH]; intros keys values Hkeys HP Hin;
    [contradiction|].
  simpl in Hkeys. destruct (h a0) as [e|k0] eqn:E0; simpl in Hkeys; [discriminate|].
  destruct (mapR h items) as [e|ks] eqn:E; simpl in Hkeys; [discriminate|].
  injection Hkeys as <-. inversion HP as [|k v0 ks' vs Hkv Hrest]; subst.
  simpl in Hin. destruct Hin as [Hin|Hin].
  - injection Hin as <- <-. now exists k0.
  - now apply (IH ks vs).
Qed.

(** ** Matching a label that is an official name *)









Lemma typo_frame_well_formed : well_formed typo_frame.
Proof.
  intros r [<-|[<-|[]]]; reflexivity.
Qed.

Lemma two_districts_apart (c : string) :
  In c ("matched_location" :: columns typo_frame) -> ~ In c (gdf_columns two_districts).
Proof.
  intros [<-|[<-|[<-|[]]]] [H|[H|[]]]; discriminate H.
Qed.



(** C8. With fuzzywuzzy, a label that scores below 80 against every official
    name is unmatched: [get_match] returns [None] and sends no notification
    (with no official name at all it raises instead, and returns no name
    either); and a row whose [matched_location] is [None] adds nothing to the
    join, which is that of the frame without the row. *)
Theorem C8_low_score_unmatched
  (scorer : string -> string -> Z) (official_districts : list string) (label : string)
  (s : state) :
  (forall official, In official official_districts -> scorer label official < 80) ->
  get_match scorer official_districts (CStr label) s
  = (if empty official_districts
     then inl (TypeError "cannot unpack non-iterable NoneType object")
     else inr CNone, s) /\
  (forall districts cols before after i cells,
     row_get cols cells "matched_location" = inr CNone ->
     merge districts (mkFrame cols (before ++ (i, cells) :: after)) "matched_location"
     = merge districts (mkFrame cols (before ++ after)) "matched_location").
Proof.
  intros Hlow. split.
  - unfold get_match.
    destruct (extractOne scorer label official_districts) as [[m sc]|] eqn:E.
    + destruct (extractOne_Some _ _ _ _ _ E) as (Hin & -> & _).
      specialize (Hlow m Hin).
      assert (H : (80 <=? scorer label m) = false) by (apply Z.leb_gt; exact Hlow).
      rewrite H. destruct official_districts; [contradiction|reflexivity].
    + apply extractOne_None in E. subst. reflexivity.
  - intros. now apply merge_drops_None.
Qed.

Lemma C8_low_score_unmatched_witness :
  get_match ratio ["Kathmandu"; "Pokhara"] (CStr "Biratnagar") initial = (inr CNone, initial).
Proof.
  assert (Hlow : forall official, In official ["Kathmandu"; "Pokhara"] ->
                   ratio "Biratnagar" official < 80)
    by (intros official [<-|[<-|[]]]; vm_compute; reflexivity).
  apply (proj1 (C8_low_score_unmatched ratio ["Kathmandu"; "Pokhara"] "Biratnagar" initial
                  Hlow)).
Defined.

(** ** The layer loop *)





(** A layer whose frame has no [Location] column is passed over by the layer
    loop: no trace, no notification, no exception. *)
Lemma draw_layer_without_Location (L : Lib) (districts_gdf : GeoDataFrame)
  (file_info : file_info) (s : state) :
  has_column "Location" (data file_info) = false ->
  draw_layer L districts_gdf file_info s = (inr tt, s).
Proof.
  intros H. unfold draw_layer. rewrite H. simpl. now destruct (visible file_info).
Qed.

(** A layer whose [Location] column was read as numbers, without
    fuzzywuzzy: the join raises, and the pass ends without a map. *)
Example numeric_Location_aborts_the_pass :
  draw_layer (demo_lib false) two_districts (snd (layer "codes.csv" "Val" codes_frame)) initial
  = (inl (ValueError
            "You are trying to merge on object and int64 columns for key 'DIST_EN'. If you wish to proceed you should use pd.concat"),
     initial) /\
  shown (main (demo_lib false) all_on two_districts one_province
           [layer "codes.csv" "Val" codes_frame; layer "good.csv" "Val" spread_frame])
  = None.
Proof. split; vm_compute; reflexivity. Qed.

(** A value column named like a boundary attribute is renamed by the join:
    line 222 does not find it. *)
Example clashing_value_column_is_not_found :
  draw_layer (demo_lib false) two_districts
    (snd (layer "names.csv" "DIST_EN"
            (mkFrame ["Location"; "DIST_EN"] [(0, [CStr "Kathmandu"; CInt 1])])))
    initial
  = (inl (KeyError "DIST_EN"), initial).
Proof. vm_compute. reflexivity. Qed.

(** ** Which rendering a layer gets *)

Lemma is_numeric_iff (L : Lib) (series : list cell) :
  is_numeric L series = true <-> (forall v, In v series -> exists q, to_numeric L v = Some q).
Proof.
  unfold is_numeric. rewrite forallb_forall. split; intros H v Hv.
  - specialize (H v Hv). destruct (to_numeric L v) as [q|]; [now exists q|discriminate].
  - destruct (H v Hv) as [q ->]. reflexivity.
Qed.

(** C3. The layer with the rows [("Kathmandu", "120"), ("Nowhere", "abc")]:
    not every value of the layer parses, and the sidebar (line 107, all
    rows) finds it categorical and offers the icon control; the render pass
    (line 222, joined rows only) finds it numeric, because the only joined
    row parses, and draws a choropleth. And a layer without rows, which the
    sidebar finds numeric, is not classified by the render pass at all: it
    is warned about and skipped. *)
Theorem C3_unmatched_text_row_still_choropleth :
  to_numeric (demo_lib false) (CStr "abc") = None /\
  sidebar_is_numeric (demo_lib false) (snd (layer "m.csv" "Val" mixed_frame)) = inr false /\
  draw_layer (demo_lib false) two_districts (snd (layer "m.csv" "Val" mixed_frame)) initial
  = (inr tt,
     extend initial
       (filled_traces (square 0 0)
          (sample_colorscale "rgba(255,255,255,0)" "#FF4500" (Finite (1 # 2)))
          (Css "rgba(0,0,0,0)"))
       []) /\
  sidebar_is_numeric (demo_lib false) (snd (layer "none.csv" "Val" empty_frame)) = inr true /\
  draw_layer (demo_lib false) two_districts (snd (layer "none.csv" "Val" empty_frame)) initial
  = (inr tt, extend initial [] [Warning "For 'none', no matching locations were found."]).
Proof.
  split; [|split; [|split; [|split]]]; vm_compute; reflexivity.
Qed.

(** ** Hover text *)

(** C1. On the scenario of the specification the layer loop joins both rows
    with Kathmandu, the second through the correction of [Katmandu] at score
    94, while the hover composer selects rows by equality on the raw
    [Location] column: the hover text of Kathmandu holds the first row alone,
    as a single value, and no lettered list. *)
Theorem C1_corrected_row_absent_from_hover :
  extractOne ratio "Katmandu" (map feat_name (features two_districts))
  = Some ("Kathmandu", 94) /\
  join_layer (demo_lib true) two_districts typo_frame initial
  = (inr (set_column typo_frame "matched_location" [CStr "Kathmandu"; CStr "Kathmandu"],
          [(Kathmandu, [CStr "Kathmandu"; CInt 120; CStr "Kathmandu"]);
           (Kathmandu, [CStr "Katmandu"; CInt 95; CStr "Kathmandu"])]),
     extend initial [] [Toast "Matched 'Katmandu' to 'Kathmandu'"]) /\
  (forall L : Lib,
     text_parts L true "Kathmandu" [layer "data.csv" "Val" typo_frame]
     = inr ["<b>District:</b> Kathmandu"; "<b>Val:</b> 120.00"]) /\
  hover_text ["<b>District:</b> Kathmandu"; "<b>Val:</b> 120.00"]
  = "<b>District:</b> Kathmandu<br><b>Val:</b> 120.00" /\
  contains "a. 120" "<b>District:</b> Kathmandu<br><b>Val:</b> 120.00" = false /\
  contains "95" "<b>District:</b> Kathmandu<br><b>Val:</b> 120.00" = false.
Proof.
  split; [|split; [|split; [|split; [|split]]]]; try intros L; vm_compute; reflexivity.
Qed.

(** A single row: a value that [float] accepts is shown with two decimals
    and grouped thousands, any other value as it prints. *)
Lemma tooltip_entries_single (L : Lib) (file_info : file_info) (i : Z) (cells : list cell)
  (v : cell) :
  row_get (columns (data file_info)) cells (value_column file_info) = inr v ->
  tooltip_entries L file_info [(i, cells)]
  = inr ["<b>" ++ tooltip_label file_info ++ ":</b> "
           ++ match py_float L v with
              | Some numeric_val => format_2f numeric_val
              | None => py_str L v
              end].
Proof.
  intros H. unfold tooltip_entries. simpl. rewrite H. simpl.
  now destruct (py_float L v).
Qed.

Example format_2f_grouped :
  format_2f (Finite 1234567) = "1,234,567.00" /\
  format_2f (Finite (1 # 8)) = "0.12" /\
  format_2f (Finite (- (5 # 2))) = "-2.50".
Proof. split; [|split]; vm_compute; reflexivity. Qed.

Example single_text_value_is_raw :
  text_parts (demo_lib false) false "Kathmandu"
    [layer "events.csv" "Event" (mkFrame ["Location"; "Event"]
                                   [(0, [CStr "Kathmandu"; CStr "Dashain"])])]
  = inr ["<b>Event:</b> Dashain"].
Proof. vm_compute. reflexivity. Qed.

(** When the rows of a district are the first rows of the file the letters
    do start at [a.]. *)
Example letters_from_a_for_leading_rows (L : Lib) :
  text_parts L true "Kathmandu" [layer "data.csv" "Val" leading_frame]
  = inr ["<b>District:</b> Kathmandu"; "<b>Val:</b>"; "  a. 120"; "  b. 95"].
Proof. vm_compute. reflexivity. Qed.

(** C4. With the rows [("Pokhara", 1), ("Kathmandu", 120), ("Kathmandu",
    95)] the two rows of Kathmandu are lettered by their index labels in the
    uploaded file, 1 and 2: the list reads [b.], [c.], not [a.], [b.]. *)
Theorem C4_letters_follow_file_positions (L : Lib) :
  text_parts L true "Kathmandu" [layer "data.csv" "Val" shifted_frame]
  = inr ["<b>District:</b> Kathmandu"; "<b>Val:</b>"; "  b. 120"; "  c. 95"].
Proof.
  vm_compute. reflexivity.
Qed.

(** ** Files without a [Location] column *)

(** C2. A file with the columns [Loc] and [Val] is not rejected: it is
    registered with [Loc] as its value column and no error is reported; and
    the next render pass, with a good layer registered before it, ends in
    the generic error on [KeyError: 'Location'] without showing the map. *)
Theorem C2_file_without_Location_is_registered :
  handle_upload (Some (mkUploaded "bad.csv" (inr no_location_frame)))
    [layer "good.csv" "Val" spread_frame]
  = ([layer "good.csv" "Val" spread_frame; layer "bad.csv" "Loc" no_location_frame], []) /\
  main (demo_lib true) all_on two_districts one_province
    [layer "good.csv" "Val" spread_frame; layer "bad.csv" "Loc" no_location_frame]
  = mkOutcome None
      [Error "An unexpected error occurred. See details below.";
       ExceptionShown (KeyError "Location")]
      None [].
Proof.
  split; vm_compute; reflexivity.
Qed.

(** C10. A registered layer without a [Location] column: the layer loop
    passes it over silently, but with its tooltip switched on (the setting
    at upload) the hover composer reads its [Location] column for the first
    district, and the pass ends in the generic error without showing the
    map. *)
Theorem C10_layer_without_Location_breaks_hover :
  (forall (L : Lib) (districts : GeoDataFrame) (s : state),
     draw_layer L districts (snd (layer "bad.csv" "Loc" no_location_frame)) s = (inr tt, s)) /\
  (forall L : Lib,
     text_parts L true "Kathmandu" [layer "bad.csv" "Loc" no_location_frame]
     = inl (KeyError "Location")) /\
  main (demo_lib false) all_on two_districts one_province
    [layer "bad.csv" "Loc" no_location_frame]
  = mkOutcome None
      [Error "An unexpected error occurred. See details below.";
       ExceptionShown (KeyError "Location")]
      None [].
Proof.
  split; [|split].
  - intros L districts s. now apply draw_layer_without_Location.
  - intros L. reflexivity.
  - vm_compute. reflexivity.
Qed.

(** * Further properties of the script *)

(** ** The upload handler *)

Lemma registered_iff (file_key : string) (uploaded_files : list (string * file_info)) :
  existsb (fun item => String.eqb (fst item) file_key) uploaded_files = true
  <-> In file_key (map fst uploaded_files).
Proof.
  rewrite existsb_exists. split.
  - intros (item & Hin & E). apply String.eqb_eq in E. subst. now apply in_map.
  - intros H. apply in_map_iff in H. destruct H as (item & <- & Hin).
    exists item. split; [exact Hin|apply String.eqb_refl].
Qed.

(** X1. The upload handler never drops or changes a registered layer: the
    registry after a script run is the old one followed by at most one new
    entry, and file keys stay pairwise distinct. *)
Theorem upload_preserves_registry
  (uploaded_file : option uploaded) (uploaded_files : list (string * file_info)) :
  NoDup (map fst uploaded_files) ->
  NoDup (map fst (fst (handle_upload uploaded_file uploaded_files))) /\
  exists added,
    fst (handle_upload uploaded_file uploaded_files) = (uploaded_files ++ added)%list /\
    (List.length added <= 1)%nat.
Proof.
  intros Hnodup.
  assert (Hsame : NoDup (map fst uploaded_files) /\
                  exists added, uploaded_files = (uploaded_files ++ added)%list /\
                                (List.length added <= 1)%nat).
  { split; [exact Hnodup|]. exists []. rewrite app_nil_r. split; [reflexivity|simpl; lia]. }
  unfold handle_upload. destruct uploaded_file as [f|]; [|exact Hsame].
  destruct (existsb _ uploaded_files) eqn:Hreg; [exact Hsame|].
  destruct (read_csv f) as [e|df]; [exact Hsame|].
  destruct (find_value_column (columns df)) as [c|]; [|exact Hsame].
  destruct (negb (String.eqb c "")); [|exact Hsame].
  simpl. split.
  - rewrite map_app. simpl.
    apply NoDup_app; [exact Hnodup|repeat constructor; auto|].
    intros k Hk [<-|[]]. apply registered_iff in Hk. congruence.
  - eexists. split; [reflexivity|simpl; lia].
Qed.

Lemma upload_preserves_registry_witness :
  NoDup (map fst (fst (handle_upload (Some (mkUploaded "more.csv" (inr typo_frame)))
                         [layer "good.csv" "Val" spread_frame]))).
Proof.
  assert (H : NoDup (map fst [layer "good.csv" "Val" spread_frame]))
    by (repeat constructor; simpl; tauto).
  exact (proj1 (upload_preserves_registry (Some (mkUploaded "more.csv" (inr typo_frame)))
                  [layer "good.csv" "Val" spread_frame] H)).
Defined.

Lemma find_value_column_first (before after : list string) (c : string) :
  (forall b, In b before -> lower b = "location") ->
  lower c <> "location" ->
  find_value_column (before ++ c :: after) = Some c.
Proof.
  intros Hbefore Hc. unfold find_value_column.
  induction before as [|b before IH]; simpl.
  - apply String.eqb_neq in Hc. now rewrite Hc.
  - rewrite (Hbefore b) by now left. simpl. apply IH. intros; apply Hbefore; now right.
Qed.

Lemma find_value_column_none (cols : list string) :
  (forall c, In c cols -> lower c = "location") -> find_value_column cols = None.
Proof.
  intros H. unfold find_value_column. induction cols as [|c cols IH]; simpl; [reflexivity|].
  rewrite (H c) by now left. simpl. apply IH. intros; apply H; now right.
Qed.

(** X2. A new file that reads well is registered under its name with, as
    value column, its first column whose lower-cased name is not
    [location], wherever that column stands and whether or not any column is
    named [Location]; the layer starts visible, with its tooltip on, and no
    message is sent. *)
Theorem upload_registers_first_other_column
  (f : uploaded) (uploaded_files : list (string * file_info)) (df : DataFrame)
  (before after : list string) (c : string) :
  ~ In (name f) (map fst uploaded_files) ->
  read_csv f = inr df ->
  columns df = (before ++ c :: after)%list ->
  (forall b, In b before -> lower b = "location") ->
  lower c <> "location" ->
  c <> "" ->
  handle_upload (Some f) uploaded_files
  = ((uploaded_files ++
      [(name f,
        mkInfo df c true "#FF4500" true (replace ".csv" "" (name f)) (replace "_" " " c)
          "🏞️")])%list,
     []).
Proof.
  intros Hnew Hread Hcols Hbefore Hc Hne. unfold handle_upload.
  destruct (existsb _ uploaded_files) eqn:Hreg.
  { apply registered_iff in Hreg. contradiction. }
  rewrite Hread, Hcols, (find_value_column_first _ _ _ Hbefore Hc).
  apply String.eqb_neq in Hne. rewrite Hne. reflexivity.
Qed.

Lemma upload_registers_first_other_column_witness :
  handle_upload (Some (mkUploaded "pop_2021.csv"
                         (inr (mkFrame ["LOCATION"; "Total_Pop"] [(0, [CStr "Kathmandu"; CInt 5])]))))
    []
  = ([("pop_2021.csv",
       mkInfo (mkFrame ["LOCATION"; "Total_Pop"] [(0, [CStr "Kathmandu"; CInt 5])])
         "Total_Pop" true "#FF4500" true "pop_2021" "Total Pop" "🏞️")],
     []).
Proof.
  assert (Hnew : ~ In "pop_2021.csv" (map fst (@nil (string * file_info)))) by (simpl; tauto).
  assert (Hbefore : forall b, In b ["LOCATION"] -> lower b = "location")
    by (intros b [<-|[]]; reflexivity).
  assert (Hc : lower "Total_Pop" <> "location") by (vm_compute; discriminate).
  assert (Hne : "Total_Pop" <> "") by discriminate.
  exact (upload_registers_first_other_column
           (mkUploaded "pop_2021.csv"
              (inr (mkFrame ["LOCATION"; "Total_Pop"] [(0, [CStr "Kathmandu"; CInt 5])])))
           [] _ ["LOCATION"] [] "Total_Pop" Hnew eq_refl eq_refl Hbefore Hc Hne).
Defined.

(** X3. A new file that reads well but whose every column is named
    [location] in some letter case (or that has no column) is rejected: the
    registry is unchanged and one error naming the file is reported. *)
Theorem upload_rejects_location_only
  (f : uploaded) (uploaded_files : list (string * file_info)) (df : DataFrame) :
  ~ In (name f) (map fst uploaded_files) ->
  read_csv f = inr df ->
  (forall c, In c (columns df) -> lower c = "location") ->
  handle_upload (Some f) uploaded_files
  = (uploaded_files,
     [Error ("Could not identify a data column in '" ++ name f
               ++ "'. Ensure one column is 'Location'.")]).
Proof.
  intros Hnew Hread Hall. unfold handle_upload.
  destruct (existsb _ uploaded_files) eqn:Hreg.
  { apply registered_iff in Hreg. contradiction. }
  now rewrite Hread, (find_value_column_none _ Hall).
Qed.

Lemma upload_rejects_location_only_witness :
  handle_upload (Some (mkUploaded "names.csv" (inr (mkFrame ["Location"] [(0, [CStr "Ilam"])]))))
    [layer "good.csv" "Val" spread_frame]
  = ([layer "good.csv" "Val" spread_frame],
     [Error "Could not identify a data column in 'names.csv'. Ensure one column is 'Location'."]).
Proof.
  assert (Hnew : ~ In "names.csv" (map fst [layer "good.csv" "Val" spread_frame]))
    by (simpl; intros [H|[]]; discriminate H).
  assert (Hall : forall c, In c ["Location"] -> lower c = "location")
    by (intros c [<-|[]]; reflexivity).
  exact (upload_rejects_location_only
           (mkUploaded "names.csv" (inr (mkFrame ["Location"] [(0, [CStr "Ilam"])])))
           [layer "good.csv" "Val" spread_frame] _ Hnew eq_refl Hall).
Defined.

(** ** Default names *)

Lemma prefix_cons (a b : ascii) (s1 s2 : string) :
  prefix (String a s1) (String b s2) = if ascii_dec a b then prefix s1 s2 else false.
Proof. reflexivity. Qed.

Lemma prefix_empty (s : string) : prefix "" s = true.
Proof. now destruct s. Qed.

Lemma contains_cons (needle : string) (c : ascii) (s : string) :
  contains needle (String c s) = prefix needle (String c s) || contains needle s.
Proof. reflexivity. Qed.

Lemma replace_from_cons (old new : string) (c : ascii) (s : string) :
  replace_from old new (String c s) 0
  = if prefix old (String c s)
    then new ++ replace_from old new s (String.length old - 1)
    else String c (replace_from old new s 0).
Proof. reflexivity. Qed.

Lemma replace_underscore_step (c : ascii) (s : string) :
  replace_from "_" " " (String c s) 0
  = String (if ascii_dec "_" c then " "%char else c) (replace_from "_" " " s 0).
Proof.
  rewrite replace_from_cons, prefix_cons, prefix_empty.
  now destruct (ascii_dec "_" c).
Qed.

(** X4. The default tooltip label of a layer has the length of its value
    column's name and contains no underscore. *)
Theorem tooltip_label_has_no_underscore (value_column : string) :
  String.length (replace "_" " " value_column) = String.length value_column /\
  contains "_" (replace "_" " " value_column) = false.
Proof.
  unfold replace. induction value_column as [|c s [IHlen IHno]].
  - split; reflexivity.
  - rewrite replace_underscore_step. split.
    + cbn [String.length]. now rewrite IHlen.
    + rewrite contains_cons, IHno, orb_false_r, prefix_cons, prefix_empty.
      destruct (ascii_dec "_" c) as [E|E].
      * now destruct (ascii_dec "_" " ").
      * now destruct (ascii_dec "_" c).
Qed.

(** X5. The default display name of a file [base.csv] whose base name has no
    dot is [base]. *)
Theorem display_name_drops_extension (base : string) :
  contains "." base = false ->
  replace ".csv" "" (base ++ ".csv") = base.
Proof.
  unfold replace. induction base as [|c s IH]; intros Hdot.
  - reflexivity.
  - rewrite contains_cons in Hdot.
    apply orb_false_iff in Hdot. destruct Hdot as [Hc Hs].
    rewrite prefix_cons, prefix_empty in Hc.
    change (String c s ++ ".csv") with (String c (s ++ ".csv")).
    rewrite replace_from_cons, prefix_cons.
    destruct (ascii_dec "." c); [discriminate|].
    now rewrite (IH Hs).
Qed.

Lemma display_name_drops_extension_witness :
  replace ".csv" "" ("pop_2021" ++ ".csv") = "pop_2021".
Proof.
  exact (display_name_drops_extension "pop_2021" eq_refl).
Defined.

(** ** Number formatting *)

(** An integer of magnitude at most 2^53 is a float64. *)
Lemma round_nearest_integer (n : Z) :
  Z.abs n <= 2 ^ 53 -> (round_nearest (inject_Z n) == inject_Z n)%Q.
Proof.
  assert (Hpos : forall m, 0 < m <= 2 ^ 53 ->
            (round_positive (inject_Z m) == inject_Z m)%Q).
  { intros m [H0 H1].
    destruct (Z.eq_dec m (2 ^ 53)) as [->|Hne]; [vm_compute; reflexivity|].
    assert (Hq : (0 < inject_Z m)%Q) by (change 0%Q with (inject_Z 0); now rewrite <- Zlt_Qlt).
    destruct (exponent_spec (inject_Z m) Hq) as [E1 _].
    assert (He : exponent (inject_Z m) < 53).
    { apply pow2_lt_inv. eapply Qle_lt_trans; [exact E1|].
      rewrite <- pow2_Z by lia. rewrite <- Zlt_Qlt. lia. }
    rewrite round_positive_value. set (k := quantum (inject_Z m)).
    assert (Hk : -1074 <= k <= 0) by (unfold k, quantum; lia).
    assert (Hs : (inject_Z m * 2 ^ (- k) == inject_Z (m * 2 ^ (- k)))%Q).
    { rewrite inject_Z_mult, pow2_Z by lia. reflexivity. }
    rewrite (round_half_even_integer _ _ Hs).
    rewrite inject_Z_mult, pow2_Z by lia.
    rewrite <- Qmult_assoc, pow2_cancel. ring. }
  intros Hn. destruct (Z.lt_trichotomy n 0) as [Hneg|[->|Hp]].
  - assert (Hq : (inject_Z n < 0)%Q) by (change 0%Q with (inject_Z 0); now rewrite <- Zlt_Qlt).
    rewrite (round_nearest_neg _ Hq).
    assert (E : (- inject_Z n == inject_Z (- n))%Q) by (now rewrite inject_Z_opp).
    assert (Hq' : (0 < - inject_Z n)%Q)
      by (revert Hq; generalize (inject_Z n); intros q Hq; lra).
    rewrite (round_positive_proper _ _ Hq' E).
    rewrite Hpos by lia. rewrite inject_Z_opp. ring.
  - reflexivity.
  - assert (Hq : (0 < inject_Z n)%Q) by (change 0%Q with (inject_Z 0); now rewrite <- Zlt_Qlt).
    rewrite (round_nearest_pos _ Hq). apply Hpos. lia.
Qed.

Lemma format_2f_integer_value (q : Q) (n : Z) :
  (q == inject_Z n)%Q ->
  format_2f (Finite q)
  = (if n <? 0 then "-" else "") ++ group_thousands (str_int (Z.abs n)) ++ ".00".
Proof.
  intros E. unfold format_2f.
  assert (Hcents : round_half_even (Qabs q * 100)%Q = Z.abs n * 100).
  { apply round_half_even_integer. rewrite E, inject_Z_mult.
    apply Qmult_comp; [|reflexivity].
    unfold Qabs, inject_Z. simpl. reflexivity. }
  rewrite Hcents, Z.div_mul, Z.mod_mul by lia.
  f_equal.
  destruct (Qlt_le_dec q 0) as [H|H].
  - rewrite E in H. change 0%Q with (inject_Z 0) in H. rewrite <- Zlt_Qlt in H.
    assert (Hn : (n <? 0) = true) by (apply Z.ltb_lt; lia). now rewrite Hn.
  - rewrite E in H. change 0%Q with (inject_Z 0) in H. rewrite <- Zle_Qle in H.
    assert (Hn : (n <? 0) = false) by (apply Z.ltb_ge; lia). now rewrite Hn.
Qed.

(** X6. An int64 of magnitude at most 2^53 in a single-value tooltip goes
    through [float] unchanged and is printed with its sign, its digits
    grouped by thousands, and [.00]. *)
Theorem format_2f_of_integer (L : Lib) (n : Z) :
  Z.abs n <= 2 ^ 53 ->
  exists numeric_val,
    py_float L (CInt n) = Some numeric_val /\
    format_2f numeric_val
    = (if n <? 0 then "-" else "") ++ group_thousands (str_int (Z.abs n)) ++ ".00".
Proof.
  intros Hn. exists (Finite (round_nearest (inject_Z n))). split.
  - unfold py_float. f_equal. apply float64_finite.
    apply Qabs_Qle_condition.
    assert (H1 : (inject_Z (- 2 ^ 53) <= inject_Z n)%Q) by (rewrite <- Zle_Qle; lia).
    assert (H2 : (inject_Z n <= inject_Z (2 ^ 53))%Q) by (rewrite <- Zle_Qle; lia).
    assert (H3 : (inject_Z (2 ^ 53) <= 2 ^ 1023)%Q).
    { rewrite pow2_Z by lia. apply pow2_le. lia. }
    rewrite inject_Z_opp in H1.
    generalize dependent (2 ^ 1023)%Q. generalize dependent (inject_Z (2 ^ 53)).
    intros a H1 H2 b H3. split; lra.
  - apply format_2f_integer_value. now apply round_nearest_integer.
Qed.

Lemma format_2f_of_integer_witness :
  exists numeric_val,
    py_float (demo_lib false) (CInt (-1234567)) = Some numeric_val /\
    format_2f numeric_val = "-1,234,567.00".
Proof.
  assert (Hn : Z.abs (-1234567) <= 2 ^ 53) by (vm_compute; discriminate).
  exact (format_2f_of_integer (demo_lib false) (-1234567) Hn).
Defined.

(** Beyond 2^53 the tooltip shows the float64, not the integer. *)
Example format_2f_rounds_large_integers :
  tooltip_entries (demo_lib false)
    (snd (layer "big.csv" "Val" large_frame)) [(1, [CStr "Pokhara"; CInt 9007199254740993])]
  = inr ["<b>Val:</b> 9,007,199,254,740,992.00"].
Proof. vm_compute. reflexivity. Qed.

(** ** The province palette *)

(** X7. The default colour of a province is defined for every index, is one
    of the seven palette colours, and repeats with period seven. *)
Theorem default_prov_color_cycles (idx : Z) :
  exists c, default_prov_color idx = Some c /\ In c default_prov_colors /\
            default_prov_color (idx + 7) = Some c.
Proof.
  unfold default_prov_color. simpl List.length. change (Z.of_nat 7) with 7.
  replace ((idx + 7) mod 7) with (idx mod 7)
    by (rewrite <- (Z.mul_1_l 7) at 2; now rewrite Z.mod_add by lia).
  pose proof (Z.mod_pos_bound idx 7 ltac:(lia)) as Hb.
  destruct (nth_error default_prov_colors (Z.to_nat (idx mod 7))) as [c|] eqn:E.
  - exists c. split; [reflexivity|]. split; [|reflexivity]. now apply nth_error_In in E.
  - apply nth_error_None in E. simpl in E. lia.
Qed.

(** ** The matcher and the join *)

(** X8. Whatever name [get_match] returns is an official name whose score
    against the label is at least 80 and is not beaten by any official name;
    one notification is sent exactly when the name differs from the label,
    and it quotes both. *)
Theorem get_match_returns_best_official
  (scorer : string -> string -> Z) (official_districts : list string)
  (loc matched : string) (s s' : state) :
  get_match scorer official_districts (CStr loc) s = (inr (CStr matched), s') ->
  In matched official_districts /\
  80 <= scorer loc matched /\
  (forall other, In other official_districts -> scorer loc other <= scorer loc matched) /\
  s' = extend s []
         (if String.eqb loc matched then []
          else [Toast ("Matched '" ++ loc ++ "' to '" ++ matched ++ "'")]).
Proof.
  unfold get_match.
  destruct (extractOne scorer loc official_districts) as [[m sc]|] eqn:E; [|discriminate].
  destruct (extractOne_Some _ _ _ _ _ E) as (Hin & -> & Hbest).
  destruct (80 <=? scorer loc m) eqn:H80; [|discriminate].
  apply Z.leb_le in H80. unfold bind, when, ret, notify.
  destruct (String.eqb loc m) eqn:Heq; simpl; intros H; injection H as <- <-.
  - split; [exact Hin|split; [exact H80|split; [exact Hbest|]]].
    rewrite Heq. now rewrite extend_nil.
  - split; [exact Hin|split; [exact H80|split; [exact Hbest|]]].
    rewrite Heq. unfold extend. simpl. now rewrite app_nil_r.
Qed.

Lemma get_match_returns_best_official_witness :
  In "Kathmandu" ["Kathmandu"; "Pokhara"] /\
  80 <= ratio "Katmandu" "Kathmandu" /\
  (forall other, In other ["Kathmandu"; "Pokhara"] ->
     ratio "Katmandu" other <= ratio "Katmandu" "Kathmandu") /\
  extend initial [] [Toast "Matched 'Katmandu' to 'Kathmandu'"]
  = extend initial []
      (if String.eqb "Katmandu" "Kathmandu" then []
       else [Toast ("Matched '" ++ "Katmandu" ++ "' to '" ++ "Kathmandu" ++ "'")]).
Proof.
  assert (H : get_match ratio ["Kathmandu"; "Pokhara"] (CStr "Katmandu") initial
              = (inr (CStr "Kathmandu"),
                 extend initial [] [Toast "Matched 'Katmandu' to 'Kathmandu'"]))
    by (vm_compute; reflexivity).
  exact (get_match_returns_best_official ratio ["Kathmandu"; "Pokhara"]
           "Katmandu" "Kathmandu" initial _ H).
Defined.

Lemma get_match_effect (scorer : string -> string -> Z) (official_districts : list string)
  (loc : cell) (s : state) :
  exists toasts,
    snd (get_match scorer official_districts loc s) = extend s [] toasts /\
    Forall is_toast toasts /\ (List.length toasts <= 1)%nat.
Proof.
  assert (Hnone : exists toasts, s = extend s [] toasts /\ Forall is_toast toasts /\
                                 (List.length toasts <= 1)%nat).
  { exists []. rewrite extend_nil. split; [reflexivity|split; [constructor|simpl; lia]]. }
  unfold get_match. destruct loc as [n|q|l| |]; try exact Hnone.
  destruct (extractOne scorer l official_districts) as [[m sc]|]; [|exact Hnone].
  destruct (80 <=? sc); [|exact Hnone].
  unfold bind, when, ret, notify. destruct (negb (String.eqb l m)); simpl; [|exact Hnone].
  eexists [_]. unfold extend. simpl. rewrite app_nil_r.
  split; [reflexivity|split].
  - constructor; [now eexists|constructor].
  - simpl. lia.
Qed.

Lemma matched_locations_effect (scorer : string -> string -> Z)
  (official_districts : list string) (locations : list cell) (s : state) :
  exists toasts,
    snd (mapM (get_match scorer official_districts) locations s) = extend s [] toasts /\
    Forall is_toast toasts /\ (List.length toasts <= List.length locations)%nat.
Proof.
  revert s. induction locations as [|loc locations IH]; intros s.
  - exists []. simpl. rewrite extend_nil. split; [reflexivity|split; [constructor|lia]].
  - simpl. unfold bind.
    destruct (get_match_effect scorer official_districts loc s) as (t1 & E1 & F1 & L1).
    destruct (get_match scorer official_districts loc s) as [[e|c] s1]; simpl in E1; subst s1.
    + exists t1. simpl. split; [reflexivity|split; [assumption|lia]].
    + destruct (IH (extend s [] t1)) as (t2 & E2 & F2 & L2).
      destruct (mapM (get_match scorer official_districts) locations (extend s [] t1))
        as [[e|cs] s2]; simpl in E2; subst s2; simpl.
      * exists (t1 ++ t2)%list. rewrite extend_extend. simpl.
        split; [reflexivity|split; [now apply Forall_app|rewrite length_app; lia]].
      * exists (t1 ++ t2)%list. rewrite extend_extend. simpl.
        split; [reflexivity|split; [now apply Forall_app|rewrite length_app; lia]].
Qed.

(** X9. Matching and joining a layer draws nothing: whether it ends in a
    result or in an exception, the figure is untouched, and the log has
    gained only [st.toast] notifications, at most one per row of the layer,
    and none at all without fuzzywuzzy. *)
Theorem join_layer_only_toasts
  (L : Lib) (districts : GeoDataFrame) (user_df : DataFrame) (s : state) :
  exists toasts,
    snd (join_layer L districts user_df s) = extend s [] toasts /\
    Forall is_toast toasts /\
    (List.length toasts <= List.length (rows user_df))%nat /\
    (process L = None -> toasts = []).
Proof.
  unfold join_layer, match_locations.
  destruct (process L) as [scorer|].
  - unfold bind at 1 2. unfold lift at 1.
    destruct (official_names districts) as [e|official_districts].
    { exists []. simpl. rewrite extend_nil.
      split; [reflexivity|split; [constructor|split; [lia|discriminate]]]. }
    unfold ret at 1. unfold bind at 1. unfold lift at 1.
    destruct (column user_df "Location") as [e|locations] eqn:Hloc.
    + exists []. simpl. rewrite extend_nil.
      split; [reflexivity|split; [constructor|split; [lia|discriminate]]].
    + unfold ret at 1.
      assert (Hrows : List.length locations = List.length (rows user_df)).
      { unfold column in Hloc. destruct (has_column "Location" user_df); [|discriminate].
        now apply mapR_length in Hloc. }
      destruct (matched_locations_effect scorer official_districts locations s)
        as (toasts & E & F & Hlen).
      unfold bind at 1.
      destruct (mapM (get_match scorer official_districts) locations s)
        as [[e|matched] s1]; simpl in E; subst s1.
      * exists toasts. simpl.
        split; [reflexivity|split; [assumption|split; [lia|discriminate]]].
      * exists toasts. unfold ret at 1. unfold bind, lift. simpl fst. simpl snd.
        destruct (merge districts _ _) as [e|joined]; simpl;
          (split; [reflexivity|split; [assumption|split; [lia|discriminate]]]).
  - exists []. unfold bind, ret, lift. simpl.
    destruct (merge districts user_df "Location") as [e|joined]; simpl;
      rewrite extend_nil;
      (split; [reflexivity|split; [constructor|split; [lia|reflexivity]]]).
Qed.

(** X10. Without fuzzywuzzy the join and the hover composer agree: when the
    join returns, it has sent no notification, and a row is joined with a
    district exactly when the hover composer selects it for that district's
    name. The join does return when the boundary frame has the name column
    and shares no label with the layer's frame, and the [Location] column
    can be read and is not a column of numbers. *)
Theorem exact_join_agrees_with_hover_rows
  (L : Lib) (districts : GeoDataFrame) (user_df : DataFrame) (s : state)
  (keys : list cell) :
  process L = None ->
  column user_df "Location" = inr keys ->
  (forall merged joined s',
     join_layer L districts user_df s = (inr (merged, joined), s') ->
     merged = user_df /\ s' = s /\
     forall d cells,
       In (d, cells) joined <->
       In d (features districts) /\
       exists items i,
         select_eq user_df "Location" (district_name districts d) = inr items /\
         In (i, cells) items) /\
  (has_name_column districts = true ->
   disjoint_labels districts user_df ->
   numeric_dtype keys = false ->
   exists joined, join_layer L districts user_df s = (inr (user_df, joined), s)).
Proof.
  intros Hp Hcol. split.
  - intros merged joined s' Hjoin.
    unfold join_layer, match_locations in Hjoin. rewrite Hp in Hjoin.
    unfold bind, ret, lift in Hjoin. cbn [fst snd] in Hjoin.
    destruct (merge districts user_df "Location") as [e|rows_] eqn:Hmerge; [discriminate|].
    unfold ret in Hjoin. injection Hjoin as <- <- <-.
    split; [reflexivity|]. split; [reflexivity|].
    destruct (merge_rows _ _ _ _ Hmerge) as (Hname & keys' & Hcol' & ->).
    rewrite Hcol in Hcol'. injection Hcol' as <-.
    unfold district_name. rewrite Hname. unfold select_eq. rewrite Hcol. cbn [bindR].
    intros d cells. rewrite in_flat_map. split.
    + intros (d' & Hd & Hin). apply in_map_iff in Hin.
      destruct Hin as ([k [i c]] & E & Hin). simpl in E. injection E as E1 E2. subst d' c.
      split; [exact Hd|]. eexists. exists i. split; [reflexivity|].
      apply in_map_iff. exists (k, (i, cells)). split; [reflexivity|exact Hin].
    + intros (Hd & items & i & E & Hin). injection E as E. subst items.
      exists d. split; [exact Hd|]. apply in_map_iff in Hin.
      destruct Hin as ([k [i' c]] & E & Hin). simpl in E. injection E as E1 E2. subst i' c.
      apply in_map_iff. exists (k, (i, cells)). split; [reflexivity|exact Hin].
  - intros Hname Hdis Hdtype.
    eexists. unfold join_layer, match_locations. rewrite Hp.
    unfold bind, ret, lift. cbn [fst snd].
    rewrite (merge_succeeds _ _ _ _ Hcol Hname Hdis)
      by (rewrite Hdtype; apply andb_false_r).
    reflexivity.
Qed.

Lemma exact_join_agrees_with_hover_rows_witness :
  exists joined,
    join_layer (demo_lib false) two_districts typo_frame initial
    = (inr (typo_frame, joined), initial).
Proof.
  assert (Hdis : disjoint_labels two_districts typo_frame)
    by (intros c Hc; apply two_districts_apart; now right).
  exact (proj2 (exact_join_agrees_with_hover_rows (demo_lib false) two_districts typo_frame
                  initial [CStr "Kathmandu"; CStr "Katmandu"] eq_refl eq_refl)
           eq_refl Hdis eq_refl).
Defined.

Lemma column_succeeds (df : DataFrame) (col : string) :
  has_column col df = true -> well_formed df -> exists keys, column df col = inr keys.
Proof.
  intros Hhas Hwf. unfold column. rewrite Hhas.
  apply mapR_total. intros r Hr. unfold row_get.
  assert (Hpos : exists k, position col (columns df) = Some k).
  { unfold has_column in Hhas. induction (columns df) as [|c cols IH]; simpl in *;
      [discriminate|].
    rewrite (String.eqb_sym col c) in Hhas. destruct (String.eqb c col); [now exists O|].
    simpl in Hhas. destruct (IH Hhas) as [k ->]. now exists (S k). }
  destruct Hpos as [k Hk]. rewrite Hk.
  destruct (nth_error (snd r) k) as [c|] eqn:E; [now exists c|].
  apply nth_error_None in E. rewrite (Hwf r Hr) in E.
  apply position_bound in Hk. lia.
Qed.

Lemma no_name_column_is_DISTRICT (districts : GeoDataFrame) :
  has_name_column districts = false -> district_col_name districts = "DISTRICT".
Proof.
  unfold has_name_column, district_col_name.
  destruct (existsb (String.eqb "DIST_EN") (gdf_columns districts)) eqn:E;
    [|reflexivity].
  rewrite E. discriminate.
Qed.

(** X11. On a boundary frame without the name column (a file without
    features is one), a visible layer with a readable [Location] column
    ends the layer loop with [KeyError: 'DISTRICT'], with or without
    fuzzywuzzy: nothing is drawn and nothing is sent for it. *)
Theorem layer_on_boundary_without_names_raises
  (L : Lib) (districts : GeoDataFrame) (file_info : file_info) (s : state) :
  has_name_column districts = false ->
  visible file_info = true ->
  has_column "Location" (data file_info) = true ->
  value_column file_info <> "" ->
  well_formed (data file_info) ->
  draw_layer L districts file_info s = (inl (KeyError "DISTRICT"), s).
Proof.
  intros Hname Hvis Hloc Hval Hwf. unfold draw_layer. rewrite Hvis, Hloc.
  apply String.eqb_neq in Hval. rewrite Hval. simpl.
  unfold join_layer, match_locations, official_names.
  rewrite Hname, (no_name_column_is_DISTRICT _ Hname).
  destruct (process L) as [scorer|].
  - reflexivity.
  - unfold bind, ret, lift, merge. cbn [fst snd].
    destruct (column_succeeds _ _ Hloc Hwf) as [keys ->]. cbn [bindR].
    rewrite Hname, (no_name_column_is_DISTRICT _ Hname). reflexivity.
Qed.

Lemma layer_on_boundary_without_names_raises_witness :
  draw_layer (demo_lib true) no_districts (snd (layer "data.csv" "Val" typo_frame)) initial
  = (inl (KeyError "DISTRICT"), initial).
Proof.
  assert (Hval : value_column (snd (layer "data.csv" "Val" typo_frame)) <> "") by discriminate.
  exact (layer_on_boundary_without_names_raises (demo_lib true) no_districts
           (snd (layer "data.csv" "Val" typo_frame)) initial
           eq_refl eq_refl eq_refl Hval typo_frame_well_formed).
Defined.

(** ** Drawing a layer *)





(** ** Composing the hover text *)

(** X14. Hover text follows registration order: the parts for a registry
    made of two stretches are the parts for the first stretch, district name
    included, followed by the layer parts of the second; if either stretch
    raises, so does the whole, with the first exception met. *)
Theorem text_parts_in_registration_order
  (L : Lib) (show_district_tooltip : bool) (district_name : string)
  (first_files more_files : list (string * file_info)) :
  text_parts L show_district_tooltip district_name (first_files ++ more_files)
  = (let? parts := text_parts L show_district_tooltip district_name first_files in
     let? more := text_parts L false district_name more_files in
     inr (parts ++ more)%list).
Proof.
  unfold text_parts. rewrite mapR_app.
  destruct (mapR _ first_files) as [e|p1]; simpl; [reflexivity|].
  destruct (mapR _ more_files) as [e|p2]; simpl; [reflexivity|].
  now rewrite concat_app, app_assoc.
Qed.

Lemma has_column_position (col : string) (df : DataFrame) :
  has_column col df = true -> exists k, position col (columns df) = Some k.
Proof.
  unfold has_column. induction (columns df) as [|c cols IH]; simpl; [discriminate|].
  rewrite (String.eqb_sym col c). destruct (String.eqb c col); [now exists O|].
  simpl. intros H. destruct (IH H) as [k ->]. now exists (S k).
Qed.

Lemma row_get_succeeds (df : DataFrame) (col : string) (r : Z * list cell) :
  has_column col df = true -> well_formed df -> In r (rows df) ->
  exists c, row_get (columns df) (snd r) col = inr c.
Proof.
  intros Hhas Hwf Hr. destruct (has_column_position _ _ Hhas) as [k Hk].
  unfold row_get. rewrite Hk.
  destruct (nth_error (snd r) k) as [c|] eqn:E; [now exists c|].
  apply nth_error_None in E. rewrite (Hwf r Hr) in E.
  apply position_bound in Hk. lia.
Qed.

Lemma select_eq_succeeds (df : DataFrame) (col district_name : string) :
  has_column col df = true -> well_formed df ->
  exists items, select_eq df col district_name = inr items /\
                forall item, In item items -> In item (rows df).
Proof.
  intros Hhas Hwf. unfold select_eq, column. rewrite Hhas.
  destruct (mapR_total (fun r => row_get (columns df) (snd r) col) (rows df)) as [keys Hkeys].
  { intros r Hr. now apply row_get_succeeds. }
  rewrite Hkeys. simpl. eexists. split; [reflexivity|].
  intros item Hin. apply in_map_iff in Hin. destruct Hin as ([k r] & <- & Hin).
  apply filter_In in Hin. destruct Hin as [Hin _]. now apply in_combine_r in Hin.
Qed.

Lemma chr_in_range (n : Z) : 0 <= n <= 1114111 -> exists letter, chr n = inr letter.
Proof.
  intros [H0 H1]. unfold chr.
  assert (E0 : (n <? 0) = false) by (apply Z.ltb_ge; lia).
  assert (E1 : (1114111 <? n) = false) by (apply Z.ltb_ge; lia).
  rewrite E0, E1. simpl.
  destruct (n <? 128); [eauto|]. destruct (n <? 2048); [eauto|].
  destruct (n <? 65536); eauto.
Qed.

Lemma chr_out_of_range (n : Z) :
  1114111 < n -> chr n = inl (ValueError "chr() arg not in range(0x110000)").
Proof.
  intros H. unfold chr.
  assert (E1 : (1114111 <? n) = true) by (apply Z.ltb_lt; lia).
  rewrite E1, orb_true_r. reflexivity.
Qed.

Lemma tooltip_entries_succeed (L : Lib) (file_info : file_info)
  (items : list (Z * list cell)) :
  has_column (value_column file_info) (data file_info) = true ->
  well_formed (data file_info) ->
  (forall item, In item items -> In item (rows (data file_info))) ->
  (forall r, In r (rows (data file_info)) -> -97 <= fst r <= 1114014) ->
  exists parts, tooltip_entries L file_info items = inr parts.
Proof.
  intros Hhas Hwf Hsub Hidx. unfold tooltip_entries.
  destruct (1 <? List.length items)%nat.
  - destruct (mapR_total
                (fun item =>
                   let? item_value :=
                     row_get (columns (data file_info)) (snd item) (value_column file_info) in
                   let? letter := chr (97 + fst item) in
                   inr ("  " ++ letter ++ ". " ++ py_str L item_value)) items) as [ls Hls].
    + intros item Hin.
      destruct (row_get_succeeds _ _ item Hhas Hwf (Hsub item Hin)) as [c ->]. cbn [bindR].
      destruct (chr_in_range (97 + fst item)) as [letter ->].
      * specialize (Hidx item (Hsub item Hin)). lia.
      * cbn [bindR]. eauto.
    + rewrite Hls. simpl. eauto.
  - destruct items as [|first rest]; [eauto|].
    destruct (row_get_succeeds _ _ first Hhas Hwf (Hsub first (or_introl eq_refl))) as [c ->].
    simpl. destruct (py_float L c); eauto.
Qed.

(** X15. The hover composer cannot raise when every layer whose tooltip is
    on has a [Location] column and its value column, one cell per column in
    every row, and index labels between -97 and 1114014 (so that
    [chr(97 + i)] is defined). *)
Theorem text_parts_succeed
  (L : Lib) (show_district_tooltip : bool) (district_name : string)
  (uploaded_files : list (string * file_info)) :
  (forall item, In item uploaded_files -> hover_ready (snd item)) ->
  exists parts,
    text_parts L show_district_tooltip district_name uploaded_files = inr parts.
Proof.
  intros Hready. unfold text_parts.
  destruct (mapR_total (fun item => layer_text_parts L district_name (snd item))
              uploaded_files) as [per_layer Hper].
  - intros item Hin. unfold layer_text_parts.
    destruct (tooltip_visible (snd item)) eqn:Hvis; [|eauto].
    destruct (Hready item Hin Hvis) as (Hloc & Hval & Hwf & Hidx).
    destruct (select_eq_succeeds (data (snd item)) "Location" district_name Hloc Hwf)
      as (items & -> & Hsub).
    simpl. destruct (negb (empty items)); [|eauto].
    now apply tooltip_entries_succeed.
  - rewrite Hper. simpl. eauto.
Qed.

Lemma typo_layer_hover_ready (item : string * file_info) :
  In item [layer "data.csv" "Val" typo_frame] -> hover_ready (snd item).
Proof.
  intros [<-|[]] _. split; [reflexivity|]. split; [reflexivity|].
  split; [exact typo_frame_well_formed|].
  intros r [<-|[<-|[]]]; simpl; lia.
Qed.

Lemma text_parts_succeed_witness :
  exists parts,
    text_parts (demo_lib true) true "Pokhara" [layer "data.csv" "Val" typo_frame] = inr parts.
Proof.
  exact (text_parts_succeed (demo_lib true) true "Pokhara"
           [layer "data.csv" "Val" typo_frame] typo_layer_hover_ready).
Defined.

(** X16. A multi-row tooltip raises [ValueError] when one of the listed rows
    has an index label above 1114014, for which [chr(97 + i)] is out of
    range, provided the rows before it can be lettered. *)
Theorem tooltip_entries_letter_out_of_range
  (L : Lib) (file_info : file_info) (before after : list (Z * list cell))
  (i : Z) (cells : list cell) (v : cell) :
  (1 <= List.length (before ++ after))%nat ->
  (forall item, In item before ->
     exists line,
       (let? item_value :=
          row_get (columns (data file_info)) (snd item) (value_column file_info) in
        let? letter := chr (97 + fst item) in
        inr ("  " ++ letter ++ ". " ++ py_str L item_value)) = inr line) ->
  row_get (columns (data file_info)) cells (value_column file_info) = inr v ->
  1114014 < i ->
  tooltip_entries L file_info (before ++ (i, cells) :: after)
  = inl (ValueError "chr() arg not in range(0x110000)").
Proof.
  intros Hlen Hbefore Hget Hi. unfold tooltip_entries.
  assert (Hmany : (1 <? List.length (before ++ (i, cells) :: after))%nat = true).
  { apply Nat.ltb_lt. rewrite length_app in *. simpl. lia. }
  rewrite Hmany, mapR_app.
  destruct (mapR_total _ before Hbefore) as [ls ->]. cbn [bindR mapR snd fst].
  rewrite Hget. cbn [bindR]. rewrite chr_out_of_range by lia. reflexivity.
Qed.

Lemma tooltip_entries_letter_out_of_range_witness :
  tooltip_entries (demo_lib false)
    (snd (layer "big.csv" "Val"
            (mkFrame ["Location"; "Val"]
               [(0, [CStr "Kathmandu"; CInt 1]); (1114015, [CStr "Kathmandu"; CInt 2])])))
    ([(0, [CStr "Kathmandu"; CInt 1])] ++ [(1114015, [CStr "Kathmandu"; CInt 2])])
  = inl (ValueError "chr() arg not in range(0x110000)").
Proof.
  assert (Hlen : (1 <= List.length ([(0, [CStr "Kathmandu"; CInt 1])] ++ []))%nat)
    by (simpl; lia).
  assert (Hi : 1114014 < 1114015) by lia.
  apply (tooltip_entries_letter_out_of_range (demo_lib false) _
           [(0, [CStr "Kathmandu"; CInt 1])] [] 1114015 [CStr "Kathmandu"; CInt 2] (CInt 2)
           Hlen).
  - intros item [<-|[]]. eexists. reflexivity.
  - reflexivity.
  - exact Hi.
Defined.

(** ** The render pass as a whole *)

Lemma add_border_trace_extend (g : geometry) (line_color : string) (line_width : Q)
  (s : state) :
  add_border_trace g line_color line_width s
  = (inr tt, extend s (outline_traces g line_color line_width) []).
Proof.
  unfold add_border_trace, outline_traces.
  rewrite (for_each_appends _ _
             (fun ring => [Outline (map fst ring) (map snd ring) (Css line_color) line_width])).
  - replace (flat_map (fun ring => [Outline (map fst ring) (map snd ring) (Css line_color)
                                      line_width]) (rings g))
      with (map (fun ring => Outline (map fst ring) (map snd ring) (Css line_color) line_width)
              (rings g)).
    + reflexivity.
    + induction (rings g) as [|r rs IH]; simpl; congruence.
  - intros. apply add_trace_extend.
Qed.

Lemma draw_provinces_extend (T : toggles) (provinces : list feature) (s : state) :
  draw_provinces T provinces s = (inr tt, extend s (province_traces T provinces) []).
Proof.
  unfold draw_provinces, province_traces, when.
  destruct (color_by_province T); [|unfold ret; now rewrite extend_nil].
  apply for_each_appends. intros ir s0 _.
  destruct (dict_get (province_visibility T) (fst ir) true).
  - apply add_filled_extend.
  - unfold ret. now rewrite extend_nil.
Qed.

Lemma draw_borders_extend (L : Lib) (T : toggles) (districts provinces : list feature)
  (s : state) :
  draw_borders L T districts provinces s
  = (inr tt, extend s (border_traces L T districts provinces) []).
Proof.
  unfold draw_borders, border_traces, when, bind.
  assert (H1 : forall s0,
            (if show_district_borders T
             then for_each districts
                    (fun row => add_border_trace (feat_geometry row) "dimgray" (1 # 2))
             else ret tt) s0
            = (inr tt,
               extend s0
                 (if show_district_borders T
                  then flat_map (fun row => outline_traces (feat_geometry row) "dimgray" (1 # 2))
                         districts
                  else []) [])).
  { intros s0. destruct (show_district_borders T); [|unfold ret; now rewrite extend_nil].
    apply for_each_appends. intros. apply add_border_trace_extend. }
  assert (H2 : forall s0,
            (if show_province_borders T
             then for_each provinces
                    (fun row => add_border_trace (feat_geometry row) "black" (3 # 2))
             else ret tt) s0
            = (inr tt,
               extend s0
                 (if show_province_borders T
                  then flat_map (fun row => outline_traces (feat_geometry row) "black" (3 # 2))
                         provinces
                  else []) [])).
  { intros s0. destruct (show_province_borders T); [|unfold ret; now rewrite extend_nil].
    apply for_each_appends. intros. apply add_border_trace_extend. }
  rewrite H1, H2.
  rewrite (for_each_appends _ _ (fun geom => outline_traces geom "black" (7 # 2)))
    by (intros; apply add_border_trace_extend).
  now rewrite !extend_extend.
Qed.

Lemma add_hover_extend (L : Lib) (show_district_tooltip : bool)
  (uploaded_files : list (string * file_info)) (districts : GeoDataFrame) (row : feature)
  (parts : list string) (s : state) :
  text_parts L show_district_tooltip (district_name districts row) uploaded_files
  = inr parts ->
  add_hover L show_district_tooltip uploaded_files districts row s
  = (inr tt, extend s (hover_traces (feat_geometry row) parts) []).
Proof.
  intros Hparts. unfold add_hover, hover_traces, bind, lift, when. rewrite Hparts.
  unfold ret at 1. destruct (empty parts); simpl.
  - unfold ret. now rewrite extend_nil.
  - rewrite (for_each_appends _ _
               (fun ring => [HoverRegion (map fst ring) (map snd ring) (hover_text parts)])).
    + replace (flat_map (fun ring => [HoverRegion (map fst ring) (map snd ring)
                                        (hover_text parts)]) (rings (feat_geometry row)))
        with (map (fun ring => HoverRegion (map fst ring) (map snd ring) (hover_text parts))
                (rings (feat_geometry row))).
      * reflexivity.
      * induction (rings (feat_geometry row)) as [|r rs IH]; simpl; congruence.
    + intros. apply add_trace_extend.
Qed.

Lemma hover_loop_extend (L : Lib) (show_district_tooltip : bool)
  (uploaded_files : list (string * file_info)) (districts : GeoDataFrame)
  (rows_ : list feature) (s : state) :
  (forall d, In d rows_ ->
     exists parts,
       text_parts L show_district_tooltip (district_name districts d) uploaded_files
       = inr parts) ->
  for_each rows_ (add_hover L show_district_tooltip uploaded_files districts) s
  = (inr tt,
     extend s
       (flat_map
          (fun d => hover_traces (feat_geometry d)
                      (hover_parts L show_district_tooltip uploaded_files districts d))
          rows_) []).
Proof.
  intros Hok. apply for_each_appends. intros d s0 Hd.
  destruct (Hok d Hd) as [parts Hparts].
  unfold hover_parts. rewrite Hparts. now apply add_hover_extend.
Qed.

(** X17. Draw order. When the layer loop and the hover composer raise
    nothing and the axis ranges can be set, the map is shown with, in this
    order, the province fills, the traces of the layers, the district,
    province and national outlines, and the hover regions of the districts,
    at those ranges; the notifications are those of the layer loop and
    nothing else. *)
Theorem main_draw_order
  (L : Lib) (T : toggles) (districts : GeoDataFrame) (provinces : list feature)
  (uploaded_files : list (string * file_info)) (after_layers : state)
  (ranges : list Q * list Q) :
  draw_layers L districts uploaded_files (extend initial (province_traces T provinces) [])
  = (inr tt, after_layers) ->
  (forall d, In d (features districts) ->
     exists parts,
       text_parts L (show_district_tooltip T) (district_name districts d) uploaded_files
       = inr parts) ->
  view_ranges L T provinces = inr ranges ->
  let figure :=
    (fig after_layers ++
     border_traces L T (features districts) provinces ++
     flat_map
       (fun d => hover_traces (feat_geometry d)
                   (hover_parts L (show_district_tooltip T) uploaded_files districts d))
       (features districts))%list in
  main L T districts provinces uploaded_files
  = mkOutcome (Some figure) (log after_layers) (Some ranges) (next_map_view L T figure).
Proof.
  intros Hlayers Hhover Hview figure. unfold main, bind.
  rewrite draw_provinces_extend, Hlayers, draw_borders_extend.
  rewrite (hover_loop_extend _ _ _ _ _ _ Hhover). rewrite extend_extend.
  rewrite Hview. unfold lift, ret, extend. simpl.
  unfold figure. now rewrite !app_nil_r.
Qed.

Lemma main_draw_order_witness :
  main (demo_lib false) all_on two_districts one_province [layer "m.csv" "Val" empty_frame]
  = mkOutcome
      (Some ([] ++
             border_traces (demo_lib false) all_on (features two_districts) one_province ++
             flat_map
               (fun d => hover_traces (feat_geometry d)
                           (hover_parts (demo_lib false) true
                              [layer "m.csv" "Val" empty_frame] two_districts d))
               (features two_districts))%list)
      [Warning "For 'm', no matching locations were found."]
      (Some ([0; 1], [0; 1])%Q)
      [].
Proof.
  assert (Hlayers :
            draw_layers (demo_lib false) two_districts [layer "m.csv" "Val" empty_frame]
              (extend initial (province_traces all_on one_province) [])
            = (inr tt, mkState [] [Warning "For 'm', no matching locations were found."] O))
    by (vm_compute; reflexivity).
  assert (Hhover : forall d, In d (features two_districts) ->
            exists parts,
              text_parts (demo_lib false) (show_district_tooltip all_on)
                (district_name two_districts d)
                [layer "m.csv" "Val" empty_frame] = inr parts)
    by (intros d [<-|[<-|[]]]; eexists; reflexivity).
  assert (Hview : view_ranges (demo_lib false) all_on one_province
                  = inr ([0; 1], [0; 1])%Q)
    by (vm_compute; reflexivity).
  exact (main_draw_order (demo_lib false) all_on two_districts one_province
           [layer "m.csv" "Val" empty_frame] _ _ Hlayers Hhover Hview).
Defined.

(** X18. Without any uploaded layer the render pass can fail only where the
    axis ranges are set. When they can be set, the map is shown with the
    province fills, the outlines and, when district names are switched on,
    one hover region per ring of every district carrying its name (or
    [N/A] when the boundary frame has no name column), and no notification
    is sent; otherwise the pass ends in the generic error with that
    exception and the map is not shown. *)
Theorem main_without_layers
  (L : Lib) (T : toggles) (districts : GeoDataFrame) (provinces : list feature) :
  let figure :=
    List.app (province_traces T provinces)
      (List.app (border_traces L T (features districts) provinces)
         (flat_map
            (fun d => hover_traces (feat_geometry d)
                        (if show_district_tooltip T
                         then ["<b>District:</b> " ++ district_name districts d]
                         else []))
            (features districts))) in
  main L T districts provinces []
  = match view_ranges L T provinces with
    | inr ranges => mkOutcome (Some figure) [] (Some ranges) (next_map_view L T figure)
    | inl e =>
        mkOutcome None
          [Error "An unexpected error occurred. See details below."; ExceptionShown e]
          None (map_view T)
    end.
Proof.
  intros figure. unfold main, bind. rewrite draw_provinces_extend.
  unfold draw_layers. cbn [for_each]. unfold ret at 1.
  rewrite draw_borders_extend.
  rewrite (hover_loop_extend L (show_district_tooltip T) [] districts (features districts))
    by (intros d _; eexists; reflexivity).
  rewrite !extend_extend.
  assert (Hfig : fig (extend initial
                        (province_traces T provinces ++
                         border_traces L T (features districts) provinces ++
                         flat_map
                           (fun d => hover_traces (feat_geometry d)
                                       (hover_parts L (show_district_tooltip T) []
                                          districts d))
                           (features districts))
                        ([] ++ [] ++ [])) = figure).
  { unfold extend, figure. simpl. f_equal. f_equal.
    apply flat_map_ext. intros d. unfold hover_parts, text_parts. simpl.
    now rewrite app_nil_r. }
  destruct (view_ranges L T provinces) as [e|ranges]; unfold lift, raise, ret.
  - reflexivity.
  - now rewrite Hfig.
Qed.

Lemma extent_spec (xs : list Q) (x : Q) :
  In x xs -> exists lo hi, extent xs = inr [lo; hi] /\ (lo <= x)%Q /\ (x <= hi)%Q.
Proof.
  intros Hin. assert (Hne : xs <> []) by (intros ->; contradiction).
  destruct (series_min_spec xs Hne) as [_ Hmin].
  destruct (series_max_spec xs Hne) as [_ Hmax].
  exists (series_min xs), (series_max xs). split; [|split; auto].
  unfold extent. now destruct xs.
Qed.

(** X23. The default view. With no stored [xaxis.range], the axis ranges
    are read off the exterior of the union of the country's outline: when
    the union is a polygon with a non-empty exterior they are an interval
    of longitudes and one of latitudes, and every point of the exterior
    lies within them; when the union is a multi-polygon, the pass ends in
    [AttributeError] and the map is not shown, whatever the layers are. *)
Theorem default_view_needs_single_polygon
  (L : Lib) (T : toggles) (districts : GeoDataFrame) (provinces : list feature)
  (uploaded_files : list (string * file_info)) :
  lookup (map_view T) "xaxis.range" = None ->
  (forall exterior point,
     union_all L (dissolve L (map feat_geometry provinces)) = Polygon exterior ->
     In point exterior ->
     exists x0 x1 y0 y1,
       view_ranges L T provinces = inr ([x0; x1], [y0; y1]) /\
       (x0 <= fst point)%Q /\ (fst point <= x1)%Q /\
       (y0 <= snd point)%Q /\ (snd point <= y1)%Q) /\
  (forall parts,
     union_all L (dissolve L (map feat_geometry provinces)) = MultiPolygon parts ->
     shown (main L T districts provinces uploaded_files) = None).
Proof.
  intros Hview. split.
  - intros exterior point Hunion Hin. unfold view_ranges. rewrite Hview, Hunion. simpl.
    destruct (extent_spec (map fst exterior) (fst point)) as (x0 & x1 & -> & Hx0 & Hx1);
      [now apply in_map|].
    destruct (extent_spec (map snd exterior) (snd point)) as (y0 & y1 & -> & Hy0 & Hy1);
      [now apply in_map|].
    exists x0, x1, y0, y1. simpl. auto.
  - intros parts Hunion. unfold main.
    match goal with
    | |- shown (match ?body initial with _ => _ end) = None =>
        assert (H : forall ranges s, body initial <> (inr ranges, s))
    end.
    { intros ranges s. unfold bind.
      destruct (draw_provinces T provinces initial) as [[e|[]] s1]; [discriminate|].
      destruct (draw_layers L districts uploaded_files s1) as [[e|[]] s2]; [discriminate|].
      destruct (draw_borders L T (features districts) provinces s2) as [[e|[]] s3];
        [discriminate|].
      destruct (for_each (features districts) _ s3) as [[e|[]] s4]; [discriminate|].
      unfold view_ranges. rewrite Hview, Hunion. discriminate. }
    match goal with
    | |- shown (match ?body initial with _ => _ end) = None =>
        destruct (body initial) as [[e|ranges] s] eqn:E
    end.
    + reflexivity.
    + exfalso. exact (H ranges s eq_refl).
Qed.

Lemma default_view_needs_single_polygon_witness :
  shown (main (demo_lib false) all_on two_districts two_provinces
           [layer "good.csv" "Val" spread_frame])
  = None.
Proof.
  exact (proj2 (default_view_needs_single_polygon (demo_lib false) all_on two_districts
                  two_provinces [layer "good.csv" "Val" spread_frame] eq_refl)
           _ eq_refl).
Defined.

Lemma mapR_fails {A B : Type} (f : A -> R B) (l : list A) (a : A) (e : exn) :
  In a l -> f a = inl e -> exists e', mapR f l = inl e'.
Proof.
  induction l as [|a0 l IH]; intros Hin Hf; [contradiction|]. simpl.
  destruct Hin as [->|Hin].
  - rewrite Hf. simpl. eauto.
  - destruct (f a0); simpl; [eauto|].
    destruct (IH Hin Hf) as [e' ->]. simpl. eauto.
Qed.

(** X19. One registered layer with its tooltip on and no column named
    [Location] keeps the whole map from being shown, whatever the other
    layers and toggles are, as soon as there is a district: the render pass
    ends in an exception. *)
Theorem main_not_shown_with_unreadable_tooltip_layer
  (L : Lib) (T : toggles) (districts : GeoDataFrame) (provinces : list feature)
  (uploaded_files : list (string * file_info)) (item : string * file_info) :
  features districts <> [] ->
  In item uploaded_files ->
  tooltip_visible (snd item) = true ->
  has_column "Location" (data (snd item)) = false ->
  shown (main L T districts provinces uploaded_files) = None.
Proof.
  intros Hdistricts Hin Hvis Hloc. unfold main, bind.
  rewrite draw_provinces_extend.
  destruct (draw_layers L districts uploaded_files _) as [[e|[]] s2]; [reflexivity|].
  rewrite draw_borders_extend.
  destruct (features districts) as [|d rest]; [congruence|].
  cbn [for_each]. unfold bind, add_hover at 1, bind, lift.
  assert (Hfail : exists e,
            text_parts L (show_district_tooltip T) (district_name districts d)
              uploaded_files = inl e).
  { unfold text_parts.
    destruct (mapR_fails
                (fun it => layer_text_parts L (district_name districts d) (snd it))
                uploaded_files item (KeyError "Location") Hin) as [e He].
    - unfold layer_text_parts, select_eq, column. now rewrite Hvis, Hloc.
    - rewrite He. simpl. eauto. }
  destruct Hfail as [e ->]. reflexivity.
Qed.

Lemma main_not_shown_with_unreadable_tooltip_layer_witness :
  shown (main (demo_lib true) all_on two_districts one_province
           [layer "good.csv" "Val" spread_frame; layer "bad.csv" "Loc" no_location_frame])
  = None.
Proof.
  assert (Hdistricts : features two_districts <> []) by discriminate.
  exact (main_not_shown_with_unreadable_tooltip_layer (demo_lib true) all_on two_districts
           one_province
           [layer "good.csv" "Val" spread_frame; layer "bad.csv" "Loc" no_location_frame]
           (layer "bad.csv" "Loc" no_location_frame) Hdistricts
           (or_intror (or_introl eq_refl)) eq_refl eq_refl).
Defined.

(** ** Nothing drawn is ever taken back *)

Lemma grows_refl (s : state) : grows s s.
Proof.
  repeat split; [exists []|exists []|lia]; now rewrite app_nil_r.
Qed.

Lemma grows_trans (s1 s2 s3 : state) : grows s1 s2 -> grows s2 s3 -> grows s1 s3.
Proof.
  intros ([t1 F1] & [n1 L1] & R1) ([t2 F2] & [n2 L2] & R2). repeat split.
  - exists (t1 ++ t2)%list. now rewrite F2, F1, app_assoc.
  - exists (n1 ++ n2)%list. now rewrite L2, L1, app_assoc.
  - lia.
Qed.

Lemma monotone_ret {A : Type} (a : A) : monotone (ret a).
Proof. intros s. apply grows_refl. Qed.

Lemma monotone_raise {A : Type} (e : exn) : monotone (@raise A e).
Proof. intros s. apply grows_refl. Qed.

Lemma monotone_lift {A : Type} (c : R A) : monotone (lift c).
Proof. destruct c; [apply monotone_raise|apply monotone_ret]. Qed.

Lemma monotone_add_trace (t : trace) : monotone (add_trace t).
Proof.
  intros s. repeat split; simpl; [now exists [t]|exists []; now rewrite app_nil_r|lia].
Qed.

Lemma monotone_notify (m : message) : monotone (notify m).
Proof.
  intros s. repeat split; simpl; [exists []; now rewrite app_nil_r|now exists [m]|lia].
Qed.

Lemma monotone_random (L : Lib) : monotone (random L).
Proof.
  intros s. repeat split; simpl; [exists []|exists []|lia]; now rewrite app_nil_r.
Qed.

Lemma monotone_bind {A B : Type} (c : M A) (k : A -> M B) :
  monotone c -> (forall a, monotone (k a)) -> monotone (bind c k).
Proof.
  intros Hc Hk s. unfold bind. specialize (Hc s).
  destruct (c s) as [[e|a] s1]; simpl in *; [exact Hc|].
  eapply grows_trans; [exact Hc|apply Hk].
Qed.

Lemma monotone_when (b : bool) (c : M unit) : monotone c -> monotone (when b c).
Proof. intros Hc. destruct b; [exact Hc|apply monotone_ret]. Qed.

Lemma monotone_for_each {A : Type} (l : list A) (body : A -> M unit) :
  (forall a, monotone (body a)) -> monotone (for_each l body).
Proof.
  intros Hbody. induction l as [|a l IH]; simpl.
  - apply monotone_ret.
  - apply monotone_bind; [apply Hbody|intros _; exact IH].
Qed.

Lemma monotone_mapM {A B : Type} (f : A -> M B) (l : list A) :
  (forall a, monotone (f a)) -> monotone (mapM f l).
Proof.
  intros Hf. induction l as [|a l IH]; simpl.
  - apply monotone_ret.
  - apply monotone_bind; [apply Hf|intros b].
    apply monotone_bind; [exact IH|intros bs; apply monotone_ret].
Qed.

Lemma monotone_get_match (scorer : string -> string -> Z) (official_districts : list string)
  (loc : cell) : monotone (get_match scorer official_districts loc).
Proof.
  unfold get_match. destruct loc; try apply monotone_raise.
  destruct (extractOne scorer s official_districts) as [[m sc]|]; [|apply monotone_raise].
  destruct (80 <=? sc); [|apply monotone_ret].
  apply monotone_bind; [|intros; apply monotone_ret].
  apply monotone_when, monotone_notify.
Qed.

Lemma monotone_join_layer (L : Lib) (districts : GeoDataFrame) (user_df : DataFrame) :
  monotone (join_layer L districts user_df).
Proof.
  unfold join_layer. apply monotone_bind.
  - unfold match_locations. destruct (process L); [|apply monotone_ret].
    apply monotone_bind; [apply monotone_lift|intros official_districts].
    apply monotone_bind; [apply monotone_lift|intros locations].
    apply monotone_bind; [|intros; apply monotone_ret].
    apply monotone_mapM. intros loc. apply monotone_get_match.
  - intros prepared. apply monotone_bind; [apply monotone_lift|intros; apply monotone_ret].
Qed.

Lemma monotone_add_filled (g : geometry) (c1 c2 : colour) : monotone (add_filled g c1 c2).
Proof. apply monotone_for_each. intros. apply monotone_add_trace. Qed.

Lemma monotone_add_border_trace (g : geometry) (c : string) (w : Q) :
  monotone (add_border_trace g c w).
Proof. apply monotone_for_each. intros. apply monotone_add_trace. Qed.

Lemma monotone_row_geometry (user_df : DataFrame) : monotone (row_geometry user_df).
Proof.
  unfold row_geometry. destruct (has_column "geometry" user_df);
    [apply monotone_raise|apply monotone_ret].
Qed.

Lemma monotone_draw_layer (L : Lib) (districts : GeoDataFrame) (file_info : file_info) :
  monotone (draw_layer L districts file_info).
Proof.
  unfold draw_layer. destruct (visible file_info); [|apply monotone_ret].
  destruct (_ && _); [|apply monotone_ret].
  apply monotone_bind; [apply monotone_join_layer|intros merged].
  destruct (empty (snd merged)); [apply monotone_notify|].
  apply monotone_bind; [apply monotone_lift|intros series].
  destruct (is_numeric L series).
  - apply monotone_bind; [apply monotone_row_geometry|intros _].
    unfold draw_numeric. apply monotone_for_each. intros row. apply monotone_add_filled.
  - apply monotone_bind; [apply monotone_row_geometry|intros _].
    unfold draw_icons. apply monotone_for_each. intros row.
    apply monotone_bind; [apply monotone_random|intros r1].
    apply monotone_bind; [apply monotone_random|intros r2].
    apply monotone_add_trace.
Qed.

Lemma monotone_add_hover (L : Lib) (show_district_tooltip : bool)
  (uploaded_files : list (string * file_info)) (districts : GeoDataFrame) (row : feature) :
  monotone (add_hover L show_district_tooltip uploaded_files districts row).
Proof.
  unfold add_hover. apply monotone_bind; [apply monotone_lift|intros parts].
  apply monotone_when, monotone_for_each. intros. apply monotone_add_trace.
Qed.

(** X20. The render pass only ever appends. From any state, and whether it
    ends normally or in an exception, the pass made of the province fills,
    the layer loop, the outlines and the hover loop leaves a figure and a
    log that begin with the figure and the log it started from, and never
    hands a random number out twice. *)
Theorem render_pass_only_appends
  (L : Lib) (T : toggles) (districts : GeoDataFrame) (provinces : list feature)
  (uploaded_files : list (string * file_info)) (s : state) :
  grows s
    (snd ((draw_provinces T provinces ;;
           draw_layers L districts uploaded_files ;;
           draw_borders L T (features districts) provinces ;;
           for_each (features districts)
             (add_hover L (show_district_tooltip T) uploaded_files districts)) s)).
Proof.
  revert s. change (monotone (draw_provinces T provinces ;;
                              draw_layers L districts uploaded_files ;;
                              draw_borders L T (features districts) provinces ;;
                              for_each (features districts)
                                (add_hover L (show_district_tooltip T) uploaded_files
                                   districts))).
  apply monotone_bind.
  - unfold draw_provinces. apply monotone_when, monotone_for_each. intros ir.
    apply monotone_when, monotone_add_filled.
  - intros _. apply monotone_bind.
    + unfold draw_layers. apply monotone_for_each. intros item. apply monotone_draw_layer.
    + intros _. apply monotone_bind.
      * unfold draw_borders. apply monotone_bind.
        -- apply monotone_when, monotone_for_each. intros.
           apply monotone_add_border_trace.
        -- intros _. apply monotone_bind.
           ++ apply monotone_when, monotone_for_each. intros.
              apply monotone_add_border_trace.
           ++ intros _. apply monotone_for_each. intros.
              apply monotone_add_border_trace.
      * intros _. apply monotone_for_each. intros d. apply monotone_add_hover.
Qed.

(** ** What a fuzzy join may pair *)

Lemma get_match_name (scorer : string -> string -> Z) (official_districts : list string)
  (loc : cell) (matched : string) (s s' : state) :
  get_match scorer official_districts loc s = (inr (CStr matched), s') ->
  exists label,
    loc = CStr label /\ In matched official_districts /\ 80 <= scorer label matched /\
    forall other, In other official_districts -> scorer label other <= scorer label matched.
Proof.
  unfold get_match. destruct loc as [n|q|l| |]; try discriminate.
  destruct (extractOne scorer l official_districts) as [[m sc]|] eqn:E; [|discriminate].
  destruct (extractOne_Some _ _ _ _ _ E) as (Hin & -> & Hbest).
  destruct (80 <=? scorer l m) eqn:H80; [|discriminate].
  apply Z.leb_le in H80. unfold bind, when, ret, notify.
  intros H. assert (Hm : m = matched).
  { destruct (negb (String.eqb l m)); simpl in H; congruence. }
  subst m. exists l. auto.
Qed.

(** X21. A fuzzy join is justified row by row. With fuzzywuzzy, on a
    well-formed frame, every joined row comes from a row of the layer whose
    label is a string, carries that row's cells with the district's name
    written into [matched_location], and is paired with a district whose
    name scores at least 80 against the label and is not beaten by any
    other district's name. *)
Theorem fuzzy_join_is_justified
  (L : Lib) (scorer : string -> string -> Z) (districts : GeoDataFrame) (user_df : DataFrame)
  (s s' : state) (merged : DataFrame * list (feature * list cell))
  (d : feature) (joined_cells : list cell) :
  process L = Some scorer ->
  well_formed user_df ->
  join_layer L districts user_df s = (inr merged, s') ->
  In (d, joined_cells) (snd merged) ->
  In d (features districts) /\
  exists i cells label,
    In (i, cells) (rows user_df) /\
    row_get (columns user_df) cells "Location" = inr (CStr label) /\
    joined_cells = with_cell (columns user_df) "matched_location" cells (CStr (feat_name d)) /\
    80 <= scorer label (feat_name d) /\
    (forall other, In other (features districts) ->
       scorer label (feat_name other) <= scorer label (feat_name d)).
Proof.
  intros Hp Hwf Hjoin Hin. unfold join_layer, match_locations in Hjoin. rewrite Hp in Hjoin.
  unfold bind, lift in Hjoin.
  unfold official_names in Hjoin.
  destruct (has_name_column districts); [|discriminate].
  unfold ret at 1 in Hjoin.
  destruct (column user_df "Location") as [e|locations] eqn:Hloc; [discriminate|].
  unfold ret at 1 in Hjoin.
  destruct (mapM (get_match scorer (map feat_name (features districts))) locations s)
    as [[e|matched] s1] eqn:Hm; [discriminate|].
  unfold ret at 1 in Hjoin. cbn [fst snd] in Hjoin.
  assert (Hrows : List.length locations = List.length (rows user_df)).
  { unfold column in Hloc. destruct (has_column "Location" user_df); [|discriminate].
    now apply mapR_length in Hloc. }
  pose proof (mapM_results _ _ _ _ _ Hm) as Hresults.
  assert (Hlen : List.length matched = List.length (rows user_df)).
  { apply Forall2_length in Hresults. congruence. }
  destruct (merge districts _ _) as [e|joined] eqn:Hmerge; [discriminate|].
  unfold ret in Hjoin. injection Hjoin as <- <-. cbn [snd] in Hin.
  destruct (merge_rows _ _ _ _ Hmerge) as (_ & keys & Hcol & ->).
  rewrite (column_set_column _ _ _ Hwf Hlen) in Hcol. injection Hcol as <-.
  apply in_flat_map in Hin. destruct Hin as (d' & Hd & Hin).
  apply in_map_iff in Hin. destruct Hin as ([k [i c]] & E & Hin).
  simpl in E. injection E as E1 E2. subst d' c.
  apply filter_In in Hin. destruct Hin as [Hin Hkey]. simpl in Hkey.
  destruct k as [n|q|m| |]; try discriminate. apply String.eqb_eq in Hkey. subst m.
  split; [exact Hd|].
  rewrite rows_set_column in Hin.
  destruct (combine_map_combine _ _ _ _ _ Hin) as ([i0 cells] & Hpair & E).
  simpl in E. injection E as -> ->.
  unfold column in Hloc. destruct (has_column "Location" user_df); [|discriminate].
  destruct (aligned_results _ _ _ _ _ _ _ Hloc Hresults Hpair)
    as (key & Hget & s0 & s2 & Hmatch).
  destruct (get_match_name _ _ _ _ _ _ Hmatch) as (label & -> & _ & H80 & Hbest).
  exists i0, cells, label. simpl in Hget.
  split; [now apply in_combine_l in Hpair|]. split; [exact Hget|]. split; [reflexivity|].
  split; [exact H80|]. intros other Hother. apply Hbest. now apply in_map.
Qed.

Lemma fuzzy_join_is_justified_witness :
  In Kathmandu (features two_districts) /\
  exists i cells label,
    In (i, cells) (rows typo_frame) /\
    row_get (columns typo_frame) cells "Location" = inr (CStr label) /\
    [CStr "Katmandu"; CInt 95; CStr "Kathmandu"]
    = with_cell (columns typo_frame) "matched_location" cells (CStr (feat_name Kathmandu)) /\
    80 <= ratio label (feat_name Kathmandu) /\
    (forall other, In other (features two_districts) ->
       ratio label (feat_name other) <= ratio label (feat_name Kathmandu)).
Proof.
  assert (Hjoin : join_layer (demo_lib true) two_districts typo_frame initial
                  = (inr (set_column typo_frame "matched_location"
                            [CStr "Kathmandu"; CStr "Kathmandu"],
                          [(Kathmandu, [CStr "Kathmandu"; CInt 120; CStr "Kathmandu"]);
                           (Kathmandu, [CStr "Katmandu"; CInt 95; CStr "Kathmandu"])]),
                     extend initial [] [Toast "Matched 'Katmandu' to 'Kathmandu'"]))
    by (vm_compute; reflexivity).
  exact (fuzzy_join_is_justified (demo_lib true) ratio two_districts typo_frame initial _ _
           Kathmandu [CStr "Katmandu"; CInt 95; CStr "Kathmandu"]
           eq_refl typo_frame_well_formed Hjoin (or_intror (or_introl eq_refl))).
Defined.

(** ** What the registry holds *)

(** X22. The upload handler keeps the registry sound: if every registered
    layer has a value column that is a column of its frame, has a non-empty
    name and is not named [location] in any letter case, the same holds
    after any upload, accepted or not. *)
Theorem upload_keeps_registry_ok
  (uploaded_file : option uploaded) (uploaded_files : list (string * file_info)) :
  registry_ok uploaded_files ->
  registry_ok (fst (handle_upload uploaded_file uploaded_files)).
Proof.
  intros Hok. unfold handle_upload.
  destruct uploaded_file as [f|]; [|exact Hok].
  destruct (existsb _ uploaded_files); [exact Hok|].
  destruct (read_csv f) as [e|df]; [exact Hok|].
  destruct (find_value_column (columns df)) as [c|] eqn:Hfind; [|exact Hok].
  destruct (negb (String.eqb c "")) eqn:Hne; [|exact Hok].
  simpl. intros item Hin. apply in_app_or in Hin. destruct Hin as [Hin|[<-|[]]].
  - now apply Hok.
  - simpl. unfold find_value_column in Hfind. apply find_some in Hfind.
    destruct Hfind as [Hcol Hlower]. split; [|split].
    + unfold has_column. apply existsb_exists. exists c. split; [exact Hcol|].
      apply String.eqb_refl.
    + apply negb_true_iff in Hne. now apply String.eqb_neq.
    + apply negb_true_iff in Hlower. now apply String.eqb_neq.
Qed.

Lemma upload_keeps_registry_ok_witness :
  registry_ok (fst (handle_upload (Some (mkUploaded "bad.csv" (inr no_location_frame))) [])).
Proof.
  assert (Hnil : registry_ok []) by (intros item []).
  exact (upload_keeps_registry_ok (Some (mkUploaded "bad.csv" (inr no_location_frame))) []
           Hnil).
Defined.

